(** * TemplateEngine: a shallow embedding of the template evaluator

    The embedded program is the [TemplateEngine] class (template-engine
    module of resume-builder-pro).  Strings are sequences of UTF-16 code
    units, as the regular expressions of the source (which carry no [u]
    flag) see them.  Every regular expression of the source is written
    out as the scanner that the backtracking matcher of JavaScript
    reduces to on that expression; the comment above each scanner
    quotes the expression it stands for. *)

From Stdlib Require Import NArith List Bool Lia String Ascii.
From stdpp Require Import base option list gmap.
Import ListNotations.

Set Warnings "-register-all".

Local Open Scope N_scope.

(** ** Strings *)

Abbreviation char := N (only parsing).
Abbreviation jstring := (list N) (only parsing).

(** A literal of the source, written as a Rocq string. *)
Definition js (s : string) : jstring :=
  List.map N_of_ascii (list_ascii_of_string s).

Definition char_eqb (a b : char) : bool := N.eqb a b.

(** [\w] without the [u] and [i] flags: [A-Za-z0-9_]. *)
Definition is_word (c : char) : bool :=
  ((48 <=? c) && (c <=? 57)) || ((65 <=? c) && (c <=? 90))
  || ((97 <=? c) && (c <=? 122)) || (c =? 95).

(** [\s]: the WhiteSpace and LineTerminator code points of ECMAScript. *)
Definition is_space (c : char) : bool :=
  ((9 <=? c) && (c <=? 13)) || (c =? 32) || (c =? 160) || (c =? 5760)
  || ((8192 <=? c) && (c <=? 8202)) || (c =? 8232) || (c =? 8233)
  || (c =? 8239) || (c =? 8287) || (c =? 12288) || (c =? 65279).

Definition LBRACE : char := 123.
Definition RBRACE : char := 125.
Definition DOT : char := 46.
Definition QUOTE : char := 34.
Definition DOLLAR : char := 36.

Fixpoint jstring_eqb (a b : jstring) : bool :=
  match a, b with
  | [], [] => true
  | x :: a', y :: b' => char_eqb x y && jstring_eqb a' b'
  | _, _ => false
  end.

(** [s.startsWith(p)], returning what follows the prefix. *)
Fixpoint strip_prefix (p s : jstring) : option jstring :=
  match p with
  | [] => Some s
  | c :: p' =>
      match s with
      | [] => None
      | d :: s' => if char_eqb c d then strip_prefix p' s' else None
      end
  end.

(** The longest prefix of [s] whose characters satisfy [f], and the rest. *)
Fixpoint span (f : char -> bool) (s : jstring) : jstring * jstring :=
  match s with
  | [] => ([], [])
  | c :: s' =>
      if f c then let '(a, b) := span f s' in (c :: a, b) else ([], s)
  end.

(** The text [b] stops a run of [f]: it is empty or starts outside [f]. *)
Definition stops (f : char -> bool) (b : jstring) : Prop :=
  match b with [] => True | c :: _ => f c = false end.

(** The first occurrence of [p] in [s]: the text before it and the text
    after it.  This is what a lazy [[\s\S]*?] followed by the literal [p]
    matches. *)
Fixpoint find_sub (p s : jstring) : option (jstring * jstring) :=
  match strip_prefix p s with
  | Some rest => Some ([], rest)
  | None =>
      match s with
      | [] => None
      | c :: s' =>
          match find_sub p s' with
          | Some (a, b) => Some (c :: a, b)
          | None => None
          end
      end
  end.

(** [s.split(sep)] for a one-character separator. *)
Fixpoint split_on (sep : char) (s : jstring) : list jstring :=
  match s with
  | [] => [[]]
  | c :: s' =>
      if char_eqb c sep then [] :: split_on sep s'
      else match split_on sep s' with
           | [] => [[c]]
           | h :: t => (c :: h) :: t
           end
  end.

(** ** Outcomes

    A call of the source returns a value or throws.  The evaluator is
    recursive through its replacement callbacks and the recursion is not
    bounded by the template (an item of a sequence may itself carry
    markup), so the embedding is indexed by a recursion depth and
    [OutOfFuel] marks a run that needs more depth than it was given. *)

Inductive Res (A : Type) : Type :=
  | Ok (a : A)
  | Throw
  | OutOfFuel.
Arguments Ok {A} a.
Arguments Throw {A}.
Arguments OutOfFuel {A}.

Definition bindR {A B} (r : Res A) (k : A -> Res B) : Res B :=
  match r with
  | Ok a => k a
  | Throw => Throw
  | OutOfFuel => OutOfFuel
  end.

Definition mapR {A B} (f : A -> B) (r : Res A) : Res B :=
  bindR r (fun a => Ok (f a)).

(** [r'] is what [r] becomes with more depth: the same, unless [r] ran out
    of depth. *)
Definition refines {A} (r r' : Res A) : Prop := r = OutOfFuel \/ r = r'.

Declare Scope res_scope.
Delimit Scope res_scope with res.
Notation "x <- c ;;; k" := (bindR c (fun x => k))
  (at level 100, c at next level, right associativity) : res_scope.
Local Open Scope res_scope.

(** ** Property lists

    The own properties of an object, in their enumeration order. *)
Section PropertyLists.

Context {V : Type}.

Fixpoint assoc (k : jstring) (ps : list (jstring * V)) : option V :=
  match ps with
  | [] => None
  | (k', v) :: ps' => if jstring_eqb k k' then Some v else assoc k ps'
  end.

(** Defining a property: in place when the key is already there, at the
    end otherwise. *)
Fixpoint obj_set (k : jstring) (v : V) (ps : list (jstring * V))
  : list (jstring * V) :=
  match ps with
  | [] => [(k, v)]
  | (k', v') :: ps' =>
      if jstring_eqb k k' then (k, v) :: ps' else (k', v') :: obj_set k v ps'
  end.

Fixpoint nat_digits_aux (fuel n : nat) (acc : jstring) : jstring :=
  match fuel with
  | O => acc
  | S f =>
      let d := N.of_nat (Nat.modulo n 10) + 48 in
      match Nat.div n 10 with
      | O => d :: acc
      | q => nat_digits_aux f q (d :: acc)
      end
  end.

(** The property key of an array index. *)
Definition index_key (i : nat) : jstring := nat_digits_aux (S i) i [].

(** The indexed properties of a sequence. *)
Definition indexed {A} (f : A -> V) (l : list A) : list (jstring * V) :=
  List.map (fun '(i, a) => (index_key i, f a)) (combine (seq 0 (length l)) l).

Definition is_digit (c : char) : bool := (48 <=? c) && (c <=? 57).

(** A property key that is a canonical array index: decimal digits with no
    leading zero. *)
Definition parse_index (k : jstring) : option nat :=
  match k with
  | [] => None
  | [c] => if is_digit c then Some (N.to_nat (c - 48)) else None
  | c :: _ =>
      if is_digit c && negb (c =? 48) && forallb is_digit k
      then Some (N.to_nat
                   (fold_left (fun acc d => 10 * acc + (d - 48)) k 0))
      else None
  end.

End PropertyLists.

(** ** Values of the data context

    Numbers are IEEE doubles in the source; the evaluator only converts
    them (to booleans, to strings, from argument tokens), so they are kept
    abstract behind the conversions of the language that the code calls. *)

Record NumberOps : Type := {
  num : Type;
  (** [ToBoolean]: false exactly on [0], [-0] and [NaN]. *)
  num_truthy : num -> bool;
  (** [Number::toString]. *)
  num_to_string : num -> jstring;
  (** False on [NaN] and the two infinities. *)
  num_finite : num -> bool;
  (** The number of an array index or length. *)
  num_of_nat : nat -> num;
  (** [Number(s)], with [None] when the result is [NaN]. *)
  string_to_number : jstring -> option num
}.

Section Evaluator.

Context {NO : NumberOps}.

(** Data is a tree of mappings, sequences and scalars.  An object lists its
    properties in their enumeration order; functions are not data. *)
Inductive JV : Type :=
  | JUndef
  | JNull
  | JBool (b : bool)
  | JNum (n : num NO)
  | JStr (s : jstring)
  | JArr (elems : list JV)
  | JObj (props : list (jstring * JV)).

(** [ToBoolean]. *)
Definition truthy (v : JV) : bool :=
  match v with
  | JUndef | JNull => false
  | JBool b => b
  | JNum n => num_truthy NO n
  | JStr s => match s with [] => false | _ => true end
  | JArr _ | JObj _ => true
  end.

Definition is_nullish (v : JV) : bool :=
  match v with JUndef | JNull => true | _ => false end.


(** [typeof v === 'object']. *)
Definition typeof_object (v : JV) : bool :=
  match v with JNull | JArr _ | JObj _ => true | _ => false end.

(** [v[k]] on a receiver that is neither [null] nor [undefined]: own
    properties of objects, elements and [length] of arrays, code units and
    [length] of strings.  The language also finds under [k] what the
    built-in prototypes define ([constructor], [toString], [__proto__],
    the methods of arrays and strings): functions and prototype objects,
    which are not data.  A key that names one of these and is not an own
    property is outside the model: [prop_of] answers [undefined] for it,
    the language does not.  Numbers and booleans have no data property at
    all. *)
Definition prop_of (v : JV) (k : jstring) : JV :=
  match v with
  | JObj ps => default JUndef (assoc k ps)
  | JArr l =>
      if jstring_eqb k (js "length") then JNum (num_of_nat NO (length l))
      else match parse_index k with
           | Some i => nth i l JUndef
           | None => JUndef
           end
  | JStr s =>
      if jstring_eqb k (js "length") then JNum (num_of_nat NO (length s))
      else match parse_index k with
           | Some i => match nth_error s i with
                       | Some c => JStr [c]
                       | None => JUndef
                       end
           | None => JUndef
           end
  | _ => JUndef
  end.

(** [v[k]] as an expression: member access on [null] or [undefined] throws
    a TypeError. *)
Definition get_prop (v : JV) (k : jstring) : Res JV :=
  if is_nullish v then Throw else Ok (prop_of v k).

Definition join_with (sep : jstring) (parts : list jstring) : jstring :=
  match parts with
  | [] => []
  | p :: ps => p ++ flat_map (fun q => sep ++ q) ps
  end.

(** [ToString], which [String.prototype.replace] applies to what a
    replacement callback returns and to a replacement that is not a
    function. *)
Fixpoint ToString (v : JV) : jstring :=
  match v with
  | JUndef => js "undefined"
  | JNull => js "null"
  | JBool true => js "true"
  | JBool false => js "false"
  | JNum n => num_to_string NO n
  | JStr s => s
  | JArr l =>
      join_with (js ",")
        (List.map (fun e => if is_nullish e then [] else ToString e) l)
  | JObj _ => js "[object Object]"
  end.

(** ** JSON.stringify *)

Definition hex_digit (n : N) : char := if n <? 10 then n + 48 else n + 87.

(** [\uXXXX], in lower-case hexadecimal. *)
Definition unicode_escape (c : char) : jstring :=
  [92; 117; hex_digit (c / 4096 mod 16); hex_digit (c / 256 mod 16);
   hex_digit (c / 16 mod 16); hex_digit (c mod 16)].

Definition is_high_surrogate (c : char) : bool := (55296 <=? c) && (c <=? 56319).
Definition is_low_surrogate (c : char) : bool := (56320 <=? c) && (c <=? 57343).

(** The body of [QuoteJSONString]: the two-character escapes, [\uXXXX] for
    the other control characters and for a surrogate without its pair. *)
Fixpoint json_escape (s : jstring) : jstring :=
  match s with
  | [] => []
  | c :: s' =>
      if c =? 8 then [92; 98] ++ json_escape s'
      else if c =? 9 then [92; 116] ++ json_escape s'
      else if c =? 10 then [92; 110] ++ json_escape s'
      else if c =? 12 then [92; 102] ++ json_escape s'
      else if c =? 13 then [92; 114] ++ json_escape s'
      else if c =? 34 then [92; 34] ++ json_escape s'
      else if c =? 92 then [92; 92] ++ json_escape s'
      else if c <? 32 then unicode_escape c ++ json_escape s'
      else if is_high_surrogate c then
        match s' with
        | d :: s'' =>
            if is_low_surrogate d then c :: d :: json_escape s''
            else unicode_escape c ++ json_escape s'
        | [] => unicode_escape c
        end
      else if is_low_surrogate c then unicode_escape c ++ json_escape s'
      else c :: json_escape s'
  end.

Definition json_quote (s : jstring) : jstring :=
  QUOTE :: json_escape s ++ [QUOTE].

(** [SerializeJSONProperty] without indentation: [None] is the
    [undefined] that makes an object skip the property and an array write
    [null]. *)
Fixpoint json (v : JV) : option jstring :=
  match v with
  | JUndef => None
  | JNull => Some (js "null")
  | JBool true => Some (js "true")
  | JBool false => Some (js "false")
  | JNum n => Some (if num_finite NO n then num_to_string NO n else js "null")
  | JStr s => Some (json_quote s)
  | JArr l =>
      Some (js "[" ++
            join_with (js ",")
              (List.map (fun e => default (js "null") (json e)) l) ++
            js "]")
  | JObj ps =>
      Some (js "{" ++
            join_with (js ",")
              (flat_map (fun p =>
                           match json (snd p) with
                           | Some t => [json_quote (fst p) ++ js ":" ++ t]
                           | None => []
                           end) ps) ++
            js "}")
  end.

(** [JSON.stringify(v)] where the code calls it: on a value whose [typeof]
    is ['object'], for which the result is a string. *)
Definition JSON_stringify (v : JV) : jstring := default [] (json v).

(** ** getValueByPath (lines 257-261)

    [path.split('.').reduce((current, key) =>
       current && current[key] !== undefined ? current[key] : undefined,
     obj)].  The guard [current &&] makes the member access safe: a truthy
    value is neither [null] nor [undefined]. *)
Definition path_step (current : JV) (key : jstring) : JV :=
  if truthy current then prop_of current key else JUndef.

Definition getValueByPath (obj : JV) (path : jstring) : JV :=
  fold_left path_step (split_on DOT path) obj.

(** ** Object literals with a spread

    [{...data, k: v}] copies the own enumerable properties of [data] (none
    for a scalar, the indexed elements of an array or a string) and then
    defines [k] with [obj_set]. *)
Definition own_props (v : JV) : list (jstring * JV) :=
  match v with
  | JObj ps => ps
  | JArr l => indexed (fun e => e) l
  | JStr s => indexed (fun c => JStr [c]) s
  | _ => []
  end.


(** ** The regular expressions of the source

    Each matcher takes the text at the position under test and returns the
    captures with the text that follows the match, or [None] when the
    expression does not match at that position. *)

(** PATH, the expression [\w+(?:\.\w+)*] in what follows, is greedy: word characters, and a dot only when a word
    character follows it.  Whatever the expressions of the source put after
    a path ([}}]) starts with neither, so a shorter path never helps the
    backtracking matcher. *)
Fixpoint scan_path (s : jstring) : jstring * jstring :=
  match s with
  | [] => ([], [])
  | c :: s' =>
      if is_word c then let '(a, b) := scan_path s' in (c :: a, b)
      else if char_eqb c DOT then
        match s' with
        | d :: _ =>
            if is_word d then let '(a, b) := scan_path s' in (c :: a, b)
            else ([], s)
        | [] => ([], s)
        end
      else ([], s)
  end.

Definition match_path (s : jstring) : option (jstring * jstring) :=
  match s with
  | c :: _ => if is_word c then Some (scan_path s) else None
  | [] => None
  end.

(** A dotted path: the whole of [p] is what PATH matches. *)
Definition is_path (p : jstring) : Prop := match_path p = Some (p, []).

Definition is_nil {A} (l : list A) : bool :=
  match l with [] => true | _ => false end.

(** [kw\s+(PATH)\}\}] for an opening marker [kw] such as
    [{{#each] or [{{#if]. *)
Definition match_open (kw s : jstring) : option (jstring * jstring) :=
  match strip_prefix kw s with
  | None => None
  | Some r0 =>
      let '(ws, r1) := span is_space r0 in
      if is_nil ws then None
      else match match_path r1 with
           | None => None
           | Some (p, r2) =>
               match strip_prefix (js "}}") r2 with
               | None => None
               | Some r3 => Some (p, r3)
               end
           end
  end.

(** [/\{\{#each\s+(PATH)\}\}([\s\S]*?)\{\{\/each\}\}/]. *)
Definition loopRegex (s : jstring)
  : option ((jstring * jstring) * jstring) :=
  match match_open (js "{{#each") s with
  | None => None
  | Some (path, r) =>
      match find_sub (js "{{/each}}") r with
      | None => None
      | Some (content, rest) => Some ((path, content), rest)
      end
  end.

(** [/\{\{this\.(\w+)\}\}/]. *)
Definition thisPropRegex (s : jstring) : option (jstring * jstring) :=
  match strip_prefix (js "{{this.") s with
  | None => None
  | Some r0 =>
      let '(w, r1) := span is_word r0 in
      if is_nil w then None
      else match strip_prefix (js "}}") r1 with
           | None => None
           | Some r2 => Some (w, r2)
           end
  end.


(** [/\{\{#if\s+(PATH)\}\}([\s\S]*?)\{\{else\}\}([\s\S]*?)\{\{\/if\}\}/].
    The two lazy spans stop at the first [{{else}}] and at the first
    [{{/if}}] after it; when no [{{/if}}] follows the first [{{else}}] none
    follows a later one either. *)
Definition ifElseRegex (s : jstring)
  : option ((jstring * jstring * jstring) * jstring) :=
  match match_open (js "{{#if") s with
  | None => None
  | Some (path, r) =>
      match find_sub (js "{{else}}") r with
      | None => None
      | Some (trueContent, r') =>
          match find_sub (js "{{/if}}") r' with
          | None => None
          | Some (falseContent, rest) =>
              Some ((path, trueContent, falseContent), rest)
          end
      end
  end.

(** [/\{\{#if\s+(PATH)\}\}([\s\S]*?)\{\{\/if\}\}/]. *)
Definition ifRegex (s : jstring)
  : option ((jstring * jstring) * jstring) :=
  match match_open (js "{{#if") s with
  | None => None
  | Some (path, r) =>
      match find_sub (js "{{/if}}") r with
      | None => None
      | Some (content, rest) => Some ((path, content), rest)
      end
  end.

(** [/\{\{(PATH)\}\}/]. *)
Definition varRegex (s : jstring) : option (jstring * jstring) :=
  match strip_prefix (js "{{") s with
  | None => None
  | Some r0 =>
      match match_path r0 with
      | None => None
      | Some (p, r1) =>
          match strip_prefix (js "}}") r1 with
          | None => None
          | Some r2 => Some (p, r2)
          end
      end
  end.

Definition not_rbrace (c : char) : bool := negb (char_eqb c RBRACE).

(** [/\{\{(\w+)\s+([^}]+)\}\}/].  [\s+] takes the whole run of white space
    and [[^}]+] all that follows up to the first [}]; when nothing but
    white space stands before that [}], the matcher backtracks [\s+] by one
    character and the argument text is that last white-space character. *)
Definition helperRegex (s : jstring)
  : option ((jstring * jstring) * jstring) :=
  match strip_prefix (js "{{") s with
  | None => None
  | Some r0 =>
      let '(name, r1) := span is_word r0 in
      if is_nil name then None
      else
        let '(ws, r2) := span is_space r1 in
        if is_nil ws then None
        else
          let '(body, r3) := span not_rbrace r2 in
          match strip_prefix (js "}}") r3 with
          | None => None
          | Some r4 =>
              match body with
              | _ :: _ => Some ((name, body), r4)
              | [] =>
                  match rev ws with
                  | last :: _ :: _ => Some ((name, [last]), r4)
                  | _ => None
                  end
              end
          end
  end.

(** ** String.prototype.replace with a global expression

    The text is scanned from the left; at a position where the expression
    matches, the callback produces the replacement from the captures and the
    matched text, and the scan resumes behind the match ([skip] counts the
    matched characters still to drop).  No expression of the source matches
    the empty string. *)
Section Replace.
Context {C : Type}.
Variable regex : jstring -> option (C * jstring).

(** With a callback that may throw. *)
Fixpoint replace_from (callback : C -> jstring -> Res jstring)
    (skip : nat) (s : jstring) : Res jstring :=
  match s with
  | [] => Ok []
  | c :: s' =>
      match skip with
      | S k => replace_from callback k s'
      | O =>
          match regex s with
          | Some (caps, rest) =>
              let n := (length s - length rest)%nat in
              r <- callback caps (firstn n s) ;;;
              out <- replace_from callback (n - 1) s' ;;;
              Ok (r ++ out)
          | None =>
              out <- replace_from callback 0 s' ;;;
              Ok (c :: out)
          end
      end
  end.

Definition replace_all (callback : C -> jstring -> Res jstring)
    (s : jstring) : Res jstring :=
  replace_from callback 0 s.

(** With a callback that always returns. *)
Fixpoint replace_pure_from (callback : C -> jstring -> jstring)
    (skip : nat) (s : jstring) : jstring :=
  match s with
  | [] => []
  | c :: s' =>
      match skip with
      | S k => replace_pure_from callback k s'
      | O =>
          match regex s with
          | Some (caps, rest) =>
              let n := (length s - length rest)%nat in
              callback caps (firstn n s)
              ++ replace_pure_from callback (n - 1) s'
          | None => c :: replace_pure_from callback 0 s'
          end
      end
  end.

Definition replace_pure (callback : C -> jstring -> jstring)
    (s : jstring) : jstring :=
  replace_pure_from callback 0 s.
End Replace.


(** Text without an opening brace, in which no expression of the evaluator
    can start a match. *)
Definition no_lbrace (s : jstring) : bool :=
  forallb (fun c => negb (char_eqb c LBRACE)) s.

Definition starts_at_lbrace {C} (regex : jstring -> option (C * jstring))
  : Prop :=
  forall c s, char_eqb c LBRACE = false -> regex (c :: s) = None.

(** ** The evaluator object *)

(** A helper is a function of its positional arguments; it may throw. *)
Local Abbreviation helper_fn := (list JV -> Res JV) (only parsing).

(** [this.templates] and [this.helpers], the two [Map]s of the
    constructor. *)
Record Engine : Type := {
  templates : gmap jstring JV;
  helpers : gmap jstring helper_fn
}.

(** [registerTemplate] (lines 64-66) and [registerHelper] (lines 88-90):
    [Map.prototype.set]. *)
Definition registerTemplate (name : jstring) (template : JV) (E : Engine)
  : Engine :=
  {| templates := <[name := template]> (templates E); helpers := helpers E |}.

Definition registerHelper (name : jstring) (fn : helper_fn) (E : Engine)
  : Engine :=
  {| templates := templates E; helpers := <[name := fn]> (helpers E) |}.

(** ** parseHelperArgs (lines 229-250) *)

Definition is_bare (c : char) : bool :=
  negb (is_space c) && negb (char_eqb c QUOTE).

Definition not_space (c : char) : bool := negb (is_space c).

Definition not_quote (c : char) : bool := negb (char_eqb c QUOTE).

(** One round of the group of the argument expression: a run of characters
    that are neither white space nor a double quote, or a double-quoted
    span. *)
Definition arg_atom (s : jstring) : option (jstring * jstring) :=
  match s with
  | [] => None
  | c :: s' =>
      if is_bare c then Some (span is_bare s)
      else if char_eqb c QUOTE then
        let '(body, r) := span not_quote s' in
        match r with
        | _ :: r' => Some (QUOTE :: body ++ [QUOTE], r')
        | [] => None
        end
      else None
  end.

(** The greedy repetition of the group; every round consumes a character,
    so [length s] rounds are never exceeded. *)
Fixpoint arg_atoms (rounds : nat) (s : jstring) : jstring * jstring :=
  match rounds with
  | O => ([], s)
  | S n =>
      match arg_atom s with
      | Some (a, r) => let '(t, r') := arg_atoms n r in (a ++ t, r')
      | None => ([], s)
      end
  end.

(** The argument expression of line 231, a repetition of the group
    (a bare run, or a quoted span) one or more times. *)
Definition argRegex (s : jstring) : option (jstring * jstring) :=
  let '(t, r) := arg_atoms (length s) s in
  if is_nil t then None else Some (t, r).

(** [argsString.match(re) || []] with a global expression: the matched
    texts, left to right. *)
Fixpoint match_all_from (skip : nat) (s : jstring) : list jstring :=
  match s with
  | [] => []
  | _ :: s' =>
      match skip with
      | S k => match_all_from k s'
      | O =>
          match argRegex s with
          | Some (t, _) => t :: match_all_from (length t - 1) s'
          | None => match_all_from 0 s'
          end
      end
  end.

Definition arg_parts (argsString : jstring) : list jstring :=
  match_all_from 0 argsString.

Definition starts_with_quote (part : jstring) : bool :=
  match part with c :: _ => char_eqb c QUOTE | [] => false end.

Definition ends_with_quote (part : jstring) : bool :=
  match rev part with c :: _ => char_eqb c QUOTE | [] => false end.

(** [part.slice(1, -1)]. *)
Definition slice_1_m1 (part : jstring) : jstring := removelast (tl part).

(** The body of the [forEach] callback. *)
Definition parse_part (data : JV) (part : jstring) : JV :=
  if starts_with_quote part && ends_with_quote part
  then JStr (slice_1_m1 part)
  else if jstring_eqb part (js "true") then JBool true
  else if jstring_eqb part (js "false") then JBool false
  else match string_to_number NO part with
       | Some n => JNum n
       | None => getValueByPath data part
       end.

Definition parseHelperArgs (argsString : jstring) (data : JV) : list JV :=
  List.map (parse_part data) (arg_parts argsString).

(** ** The four passes *)

(** The replacement patterns of a replacement that is a string, for an
    expression without capture groups: [$$], [$&], [$`] and [$']. *)
Fixpoint expand_dollar (before matched after repl : jstring) : jstring :=
  match repl with
  | [] => []
  | c :: r =>
      if char_eqb c DOLLAR then
        match r with
        | d :: r' =>
            if char_eqb d DOLLAR then DOLLAR :: expand_dollar before matched after r'
            else if char_eqb d 38 then matched ++ expand_dollar before matched after r'
            else if char_eqb d 96 then before ++ expand_dollar before matched after r'
            else if char_eqb d 39 then after ++ expand_dollar before matched after r'
            else c :: expand_dollar before matched after r
        | [] => [c]
        end
      else c :: expand_dollar before matched after r
  end.

(** The loop scope of lines 148-154. *)
Definition itemData (data item : JV) (index len : nat) : JV :=
  JObj (obj_set (js "@last") (JBool (Nat.eqb index (len - 1)))
       (obj_set (js "@first") (JBool (Nat.eqb index 0))
       (obj_set (js "@index") (JNum (num_of_nat NO index))
       (obj_set (js "this") item (own_props data))))).

(** Lines 157-159: [content.replace(/\{\{this\.(\w+)\}\}/g, ...)].  The
    callback reads [item[prop]], which throws on an item that is [null] or
    [undefined]. *)
Definition this_prop_text (v : JV) : jstring :=
  ToString (match v with JUndef => JStr [] | _ => v end).

Definition replace_this_props (item : JV) (content : jstring) : Res jstring :=
  replace_all thisPropRegex
    (fun prop _ => v <- get_prop item prop ;;; Ok (this_prop_text v))
    content.

(** Lines 161-163: [itemContent.replace(/\{\{this\}\}/g, ...)] with a
    replacement that is not a function: it is converted to a string and its
    replacement patterns are expanded against the text before and after
    each match. *)
Fixpoint replace_this_from (repl before_rev : jstring) (skip : nat)
    (s : jstring) : jstring :=
  match s with
  | [] => []
  | c :: s' =>
      match skip with
      | S k => replace_this_from repl (c :: before_rev) k s'
      | O =>
          match strip_prefix (js "{{this}}") s with
          | Some rest =>
              expand_dollar (rev before_rev) (js "{{this}}") rest repl
              ++ replace_this_from repl (c :: before_rev) 7 s'
          | None => c :: replace_this_from repl (c :: before_rev) 0 s'
          end
      end
  end.

Definition replace_this (item : JV) (itemContent : jstring) : jstring :=
  let repl :=
    if typeof_object item then JSON_stringify item else ToString item in
  replace_this_from repl [] 0 itemContent.



Section Passes.
Variable E : Engine.
(** [this.processTemplate], as the replacement callbacks call it. *)
Variable rec : jstring -> JV -> Res jstring.

(** The callback of [items.map] (lines 147-166). *)
Definition loop_item (data : JV) (content : jstring) (len : nat)
    (index : nat) (item : JV) : Res jstring :=
  c1 <- replace_this_props item content ;;;
  rec (replace_this item c1) (itemData data item index len).

(** [items.map(f).join('')], the callback running on the elements in
    order. *)
Fixpoint map_join (f : nat -> JV -> Res jstring) (index : nat)
    (items : list JV) : Res jstring :=
  match items with
  | [] => Ok []
  | item :: rest =>
      r <- f index item ;;;
      out <- map_join f (S index) rest ;;;
      Ok (r ++ out)
  end.

(** processLoops (lines 140-168). *)
Definition loop_callback (data : JV) (caps : jstring * jstring)
  : Res jstring :=
  let '(path, content) := caps in
  match getValueByPath data path with
  | JArr items => map_join (loop_item data content (length items)) 0 items
  | _ => Ok []
  end.

Definition processLoops (template : jstring) (data : JV) : Res jstring :=
  replace_all loopRegex (fun caps _ => loop_callback data caps) template.

(** processConditionals (lines 173-189). *)
Definition ifElse_callback (data : JV)
    (caps : jstring * jstring * jstring) : Res jstring :=
  let '(path, trueContent, falseContent) := caps in
  if truthy (getValueByPath data path) then rec trueContent data
  else rec falseContent data.

Definition if_callback (data : JV) (caps : jstring * jstring)
  : Res jstring :=
  let '(path, content) := caps in
  if truthy (getValueByPath data path) then rec content data else Ok [].

(** The two [replace] calls of processConditionals, in their order. *)
Definition replaceIfElse (template : jstring) (data : JV) : Res jstring :=
  replace_all ifElseRegex (fun caps _ => ifElse_callback data caps) template.

Definition replaceIf (template : jstring) (data : JV) : Res jstring :=
  replace_all ifRegex (fun caps _ => if_callback data caps) template.

Definition processConditionals (template : jstring) (data : JV)
  : Res jstring :=
  t1 <- replaceIfElse template data ;;;
  replaceIf t1 data.

(** processVariables (lines 194-207). *)
Definition var_callback (data : JV) (path matched : jstring) : jstring :=
  if (match path with
      | c :: _ => char_eqb c 35 || char_eqb c 47
      | [] => false
      end)
  then matched
  else
    let value := getValueByPath data path in
    if is_nullish value then []
    else if typeof_object value then JSON_stringify value
    else ToString value.

Definition processVariables (template : jstring) (data : JV) : jstring :=
  replace_pure varRegex (var_callback data) template.

(** processHelpers (lines 212-224). *)
Definition helper_callback (data : JV) (caps : jstring * jstring)
    (matched : jstring) : Res jstring :=
  let '(helperName, argsString) := caps in
  match helpers E !! helperName with
  | None => Ok matched
  | Some helper =>
      v <- helper (parseHelperArgs argsString data) ;;;
      Ok (ToString v)
  end.

Definition processHelpers (template : jstring) (data : JV) : Res jstring :=
  replace_all helperRegex (helper_callback data) template.

(** The body of processTemplate (lines 119-135). *)
Definition passes (template : jstring) (data : JV) : Res jstring :=
  r1 <- processLoops template data ;;;
  r2 <- processConditionals r1 data ;;;
  processHelpers (processVariables r2 data) data.
End Passes.

(** processTemplate, to a recursion depth. *)
Fixpoint processTemplate (E : Engine) (fuel : nat) (template : jstring)
    (data : JV) : Res jstring :=
  match fuel with
  | O => OutOfFuel
  | S n => passes E (processTemplate E n) template data
  end.

(** [this.processTemplate(html, data)] on a value: the first thing the
    pipeline does is [template.replace(...)], which only a string has. *)
Definition processTemplateV (E : Engine) (fuel : nat) (html : JV)
    (data : JV) : Res jstring :=
  match html with
  | JStr s => processTemplate E fuel s data
  | _ => Throw
  end.

(** render (lines 97-112). *)
Definition render (E : Engine) (fuel : nat) (templateName : jstring)
    (data : JV) : Res jstring :=
  let html :=
    match templates E !! templateName with
    | Some template =>
        if truthy template then
          let h := prop_of template (js "html") in
          if truthy h then h else template
        else JStr templateName
    | None => JStr templateName
    end in
  processTemplateV E fuel html data.

(** compile (lines 284-286).  The arrow function closes over [this], the
    evaluator object, and reads its registries when it is called: the
    closure is a function of the engine state of the call. *)
Definition compile (templateString : jstring)
  : Engine -> nat -> JV -> Res jstring :=
  fun E fuel data => processTemplate E fuel templateString data.

End Evaluator.

Arguments JV : clear implicits.

(** ** Programs over one evaluator

    A caller holds the evaluator object and runs methods on it one after
    the other; the registries are the state that the calls share. *)
Section Programs.

Context {NO : NumberOps}.








End Programs.

(** ** The context as objects in a store

    A second reading of the same methods, for what they do to memory.  The
    objects and arrays of the data live in a store and values refer to them
    by address, so the context that [render] receives is shared with its
    caller.  A method takes the store and returns it: an assignment to a
    property would show as a changed cell, an object literal shows as a new
    cell.  The built-in conversions and the registered helpers read the
    store. *)
Module Store.
Section StoreModel.

Context {NO : NumberOps}.

Inductive val : Type :=
  | VUndef
  | VNull
  | VBool (b : bool)
  | VNum (n : num NO)
  | VStr (s : jstring)
  | VRef (address : nat).

Inductive cell : Type :=
  | CObj (props : list (jstring * val))
  | CArr (elems : list val).

(** [ToString] and [JSON.stringify] on the store (given below, after the
    methods); the latter throws on a cyclic structure. *)
Variable ToString_h : list cell -> val -> jstring.
Variable JSON_stringify_h : list cell -> val -> Res jstring.

(** A computation on the store. *)
Definition St (A : Type) : Type := list cell -> Res A * list cell.

Definition ret {A} (a : A) : St A := fun h => (Ok a, h).

Definition bind {A B} (m : St A) (k : A -> St B) : St B :=
  fun h =>
    match m h with
    | (Ok a, h') => k a h'
    | (Throw, h') => (Throw, h')
    | (OutOfFuel, h') => (OutOfFuel, h')
    end.

(** An expression that reads the store. *)
Definition read {A} (f : list cell -> Res A) : St A := fun h => (f h, h).

(** An object literal: a new cell at the next free address. *)
Definition alloc (c : cell) : St val :=
  fun h => (Ok (VRef (length h)), h ++ [c]).

Definition truthy (v : val) : bool :=
  match v with
  | VUndef | VNull => false
  | VBool b => b
  | VNum n => num_truthy NO n
  | VStr s => negb (is_nil s)
  | VRef _ => true
  end.

Definition is_nullish (v : val) : bool :=
  match v with VUndef | VNull => true | _ => false end.

Definition typeof_object (v : val) : bool :=
  match v with VNull | VRef _ => true | _ => false end.

Definition prop_of (h : list cell) (v : val) (k : jstring) : val :=
  match v with
  | VRef a =>
      match nth_error h a with
      | Some (CObj ps) => default VUndef (assoc k ps)
      | Some (CArr l) =>
          if jstring_eqb k (js "length") then VNum (num_of_nat NO (length l))
          else match parse_index k with
               | Some i => nth i l VUndef
               | None => VUndef
               end
      | None => VUndef
      end
  | VStr s =>
      if jstring_eqb k (js "length") then VNum (num_of_nat NO (length s))
      else match parse_index k with
           | Some i => match nth_error s i with
                       | Some c => VStr [c]
                       | None => VUndef
                       end
           | None => VUndef
           end
  | _ => VUndef
  end.

Definition get_prop (h : list cell) (v : val) (k : jstring) : Res val :=
  if is_nullish v then Throw else Ok (prop_of h v k).

(** getValueByPath (lines 257-261). *)
Definition path_step (h : list cell) (current : val) (key : jstring) : val :=
  if truthy current then prop_of h current key else VUndef.

Definition getValueByPath (h : list cell) (obj : val) (path : jstring) : val :=
  fold_left (path_step h) (split_on DOT path) obj.

Definition own_props (h : list cell) (v : val) : list (jstring * val) :=
  match v with
  | VRef a =>
      match nth_error h a with
      | Some (CObj ps) => ps
      | Some (CArr l) => indexed (fun e => e) l
      | None => []
      end
  | VStr s => indexed (fun c => VStr [c]) s
  | _ => []
  end.

(** The object literal of lines 148-154. *)
Definition scope_props (h : list cell) (data item : val) (index len : nat)
  : list (jstring * val) :=
  obj_set (js "@last") (VBool (Nat.eqb index (len - 1)))
    (obj_set (js "@first") (VBool (Nat.eqb index 0))
    (obj_set (js "@index") (VNum (num_of_nat NO index))
    (obj_set (js "this") item (own_props h data)))).

Definition itemData (data item : val) (index len : nat) : St val :=
  fun h => alloc (CObj (scope_props h data item index len)) h.

Definition this_prop_text (h : list cell) (v : val) : jstring :=
  ToString_h h (match v with VUndef => VStr [] | _ => v end).

Definition replace_this_props (h : list cell) (item : val)
    (content : jstring) : Res jstring :=
  replace_all thisPropRegex
    (fun prop _ => v <- get_prop h item prop ;;; Ok (this_prop_text h v))
    content.

Definition replace_this (h : list cell) (item : val) (itemContent : jstring)
  : Res jstring :=
  repl <- (if typeof_object item then JSON_stringify_h h item
           else Ok (ToString_h h item)) ;;;
  Ok (replace_this_from repl [] 0 itemContent).

(** [String.prototype.replace] with a callback that works on the store. *)
Fixpoint replace_from_st {C} (regex : jstring -> option (C * jstring))
    (callback : C -> jstring -> St jstring) (skip : nat) (s : jstring)
  : St jstring :=
  match s with
  | [] => ret []
  | c :: s' =>
      match skip with
      | S k => replace_from_st regex callback k s'
      | O =>
          match regex s with
          | Some (caps, rest) =>
              let n := (length s - length rest)%nat in
              bind (callback caps (firstn n s)) (fun r =>
              bind (replace_from_st regex callback (n - 1) s') (fun out =>
              ret (r ++ out)))
          | None =>
              bind (replace_from_st regex callback 0 s') (fun out =>
              ret (c :: out))
          end
      end
  end.

Definition replace_all_st {C} (regex : jstring -> option (C * jstring))
    (callback : C -> jstring -> St jstring) (s : jstring) : St jstring :=
  replace_from_st regex callback 0 s.

Record Engine : Type := {
  templates : gmap jstring val;
  helpers : gmap jstring (list cell -> list val -> Res val)
}.

Definition parse_part (h : list cell) (data : val) (part : jstring) : val :=
  if starts_with_quote part && ends_with_quote part
  then VStr (slice_1_m1 part)
  else if jstring_eqb part (js "true") then VBool true
  else if jstring_eqb part (js "false") then VBool false
  else match string_to_number NO part with
       | Some n => VNum n
       | None => getValueByPath h data part
       end.

Definition parseHelperArgs (h : list cell) (argsString : jstring)
    (data : val) : list val :=
  List.map (parse_part h data) (arg_parts argsString).

Section Passes.
Variable E : Engine.
Variable rec : jstring -> val -> St jstring.

(** The callback of [items.map] (lines 147-166): the scope object first,
    then the two substitutions, then the inner pipeline. *)
Definition loop_item (data : val) (content : jstring) (len : nat)
    (index : nat) (item : val) : St jstring :=
  bind (itemData data item index len) (fun scope =>
  bind (read (fun h => replace_this_props h item content)) (fun c1 =>
  bind (read (fun h => replace_this h item c1)) (fun c2 =>
  rec c2 scope))).

Fixpoint map_join (f : nat -> val -> St jstring) (index : nat)
    (items : list val) : St jstring :=
  match items with
  | [] => ret []
  | item :: rest =>
      bind (f index item) (fun r =>
      bind (map_join f (S index) rest) (fun out =>
      ret (r ++ out)))
  end.

Definition loop_callback (data : val) (caps : jstring * jstring)
  : St jstring :=
  fun h =>
    let '(path, content) := caps in
    match getValueByPath h data path with
    | VRef a =>
        match nth_error h a with
        | Some (CArr items) =>
            map_join (loop_item data content (length items)) 0 items h
        | _ => ret [] h
        end
    | _ => ret [] h
    end.

Definition processLoops (template : jstring) (data : val) : St jstring :=
  replace_all_st loopRegex (fun caps _ => loop_callback data caps) template.

Definition ifElse_callback (data : val)
    (caps : jstring * jstring * jstring) : St jstring :=
  fun h =>
    let '(path, trueContent, falseContent) := caps in
    if truthy (getValueByPath h data path) then rec trueContent data h
    else rec falseContent data h.

Definition if_callback (data : val) (caps : jstring * jstring)
  : St jstring :=
  fun h =>
    let '(path, content) := caps in
    if truthy (getValueByPath h data path) then rec content data h
    else ret [] h.

Definition processConditionals (template : jstring) (data : val)
  : St jstring :=
  bind (replace_all_st ifElseRegex
          (fun caps _ => ifElse_callback data caps) template) (fun t1 =>
  replace_all_st ifRegex (fun caps _ => if_callback data caps) t1).

Definition var_callback (h : list cell) (data : val)
    (path matched : jstring) : Res jstring :=
  if (match path with
      | c :: _ => char_eqb c 35 || char_eqb c 47
      | [] => false
      end)
  then Ok matched
  else
    let value := getValueByPath h data path in
    if is_nullish value then Ok []
    else if typeof_object value then JSON_stringify_h h value
    else Ok (ToString_h h value).

Definition processVariables (template : jstring) (data : val)
  : St jstring :=
  replace_all_st varRegex
    (fun path matched => read (fun h => var_callback h data path matched))
    template.

Definition helper_callback (data : val) (caps : jstring * jstring)
    (matched : jstring) : St jstring :=
  read (fun h =>
    let '(helperName, argsString) := caps in
    match helpers E !! helperName with
    | None => Ok matched
    | Some helper =>
        v <- helper h (parseHelperArgs h argsString data) ;;;
        Ok (ToString_h h v)
    end).

Definition processHelpers (template : jstring) (data : val) : St jstring :=
  replace_all_st helperRegex (helper_callback data) template.

Definition passes (template : jstring) (data : val) : St jstring :=
  bind (processLoops template data) (fun r1 =>
  bind (processConditionals r1 data) (fun r2 =>
  bind (processVariables r2 data) (fun r3 =>
  processHelpers r3 data))).

End Passes.

Fixpoint processTemplate (E : Engine) (fuel : nat) (template : jstring)
    (data : val) : St jstring :=
  match fuel with
  | O => fun h => (OutOfFuel, h)
  | S n => passes E (processTemplate E n) template data
  end.

(** render (lines 97-112). *)
Definition render (E : Engine) (fuel : nat) (templateName : jstring)
    (data : val) : St jstring :=
  fun h =>
    let html :=
      match templates E !! templateName with
      | Some template =>
          if truthy template then
            let m := prop_of h template (js "html") in
            if truthy m then m else template
          else VStr templateName
      | None => VStr templateName
      end in
    match html with
    | VStr s => processTemplate E fuel s data h
    | _ => (Throw, h)
    end.

(** A computation that leaves every cell of the store it starts from as
    it is, and at most adds cells. *)
Definition preserves {A} (m : St A) : Prop :=
  forall h, exists added, snd (m h) = h ++ added.

End StoreModel.

(** The two conversions on a store.  [visiting] holds the addresses of the
    arrays and objects being converted: [Array.prototype.join] writes the
    empty string for an array that is already being joined, and
    [JSON.stringify] throws on a structure that contains itself.  The depth
    bound is never reached with [S (length h)], as the addresses under
    conversion are distinct cells of [h]. *)
Section Conversions.

Context {NO : NumberOps}.

Definition visited (a : nat) (visiting : list nat) : bool :=
  existsb (Nat.eqb a) visiting.

Fixpoint to_string (depth : nat) (visiting : list nat)
    (h : list (@cell NO)) (v : @val NO) : jstring :=
  match v with
  | VUndef => js "undefined"
  | VNull => js "null"
  | VBool true => js "true"
  | VBool false => js "false"
  | VNum n => num_to_string NO n
  | VStr s => s
  | VRef a =>
      match nth_error h a with
      | Some (CObj _) => js "[object Object]"
      | Some (CArr l) =>
          match depth with
          | O => []
          | S d =>
              if visited a visiting then []
              else join_with (js ",")
                     (List.map
                        (fun e => if is_nullish e then []
                                  else to_string d (a :: visiting) h e) l)
          end
      | None => []
      end
  end.

Definition ToString (h : list (@cell NO)) (v : @val NO) : jstring :=
  to_string (S (length h)) [] h v.

Fixpoint sequenceR {A} (rs : list (Res A)) : Res (list A) :=
  match rs with
  | [] => Ok []
  | r :: rs' => a <- r ;;; l <- sequenceR rs' ;;; Ok (a :: l)
  end.

Fixpoint json (depth : nat) (visiting : list nat) (h : list (@cell NO))
    (v : @val NO) : Res (option jstring) :=
  match v with
  | VUndef => Ok None
  | VNull => Ok (Some (js "null"))
  | VBool true => Ok (Some (js "true"))
  | VBool false => Ok (Some (js "false"))
  | VNum n =>
      Ok (Some (if num_finite NO n then num_to_string NO n else js "null"))
  | VStr s => Ok (Some (json_quote s))
  | VRef a =>
      match depth with
      | O => OutOfFuel
      | S d =>
          if visited a visiting then Throw
          else
            match nth_error h a with
            | Some (CArr l) =>
                parts <- sequenceR
                           (List.map
                              (fun e =>
                                 t <- json d (a :: visiting) h e ;;;
                                 Ok (default (js "null") t)) l) ;;;
                Ok (Some (js "[" ++ join_with (js ",") parts ++ js "]"))
            | Some (CObj ps) =>
                parts <- sequenceR
                           (List.map
                              (fun p =>
                                 t <- json d (a :: visiting) h (snd p) ;;;
                                 Ok (match t with
                                     | Some x =>
                                         [json_quote (fst p) ++ js ":" ++ x]
                                     | None => []
                                     end)) ps) ;;;
                Ok (Some (js "{" ++ join_with (js ",") (concat parts)
                          ++ js "}"))
            | None => Ok None
            end
      end
  end.

Definition JSON_stringify (h : list (@cell NO)) (v : @val NO) : Res jstring :=
  t <- json (S (length h)) [] h v ;;; Ok (default [] t).

End Conversions.
End Store.

(** ** Integer numbers

    The numbers that are integers, with the conversions of the language on
    them; [string_to_number] reads the decimal integer numerals.  The
    concrete runs below use no other number. *)
Module IntNumbers.
Local Open Scope Z_scope.

Fixpoint digits_of (fuel : nat) (n : N) (acc : jstring) : jstring :=
  match fuel with
  | O => acc
  | S f =>
      let d := (n mod 10 + 48)%N in
      if (n / 10 =? 0)%N then d :: acc
      else digits_of f (n / 10)%N (d :: acc)
  end.

Definition to_string (z : Z) : jstring :=
  let mag := digits_of (S (N.to_nat (N.log2 (Z.abs_N z)))) (Z.abs_N z) [] in
  if z <? 0 then 45%N :: mag else mag.

Definition read_digits (s : jstring) : option N :=
  match s with
  | [] => None
  | _ =>
      if forallb (fun c => (48 <=? c)%N && (c <=? 57)%N) s
      then Some (fold_left (fun acc d => 10 * acc + (d - 48))%N s 0%N)
      else None
  end.

Definition of_string (s : jstring) : option Z :=
  match s with
  | c :: s' =>
      if (c =? 45)%N then option_map (fun n => - Z.of_N n) (read_digits s')
      else if (c =? 43)%N then option_map Z.of_N (read_digits s')
      else option_map Z.of_N (read_digits s)
  | [] => None
  end.

Definition ops : NumberOps := {|
  num := Z;
  num_truthy := fun z => negb (z =? 0);
  num_to_string := to_string;
  num_finite := fun _ => true;
  num_of_nat := Z.of_nat;
  string_to_number := of_string
|}.
End IntNumbers.

Definition IV : Type := JV IntNumbers.ops.

(** An evaluator with empty registries.  (The constructor also registers
    five default helpers; no run below calls one.) *)
Definition empty_engine : @Engine IntNumbers.ops :=
  {| templates := ∅; helpers := ∅ |}.

(** Data literals for the concrete runs. *)
Definition field (k : string) (v : IV) : list N * IV := (js k, v).

Definition obj (props : list (list N * IV)) : IV := JObj props.

Definition str (s : string) : IV := JStr (js s).

Definition int (z : Z) : IV := @JNum IntNumbers.ops z.

(** A store with the context [{items: [a, b]}] at address 0, the array at
    address 1. *)
Definition store0 : list (@Store.cell IntNumbers.ops) :=
  [Store.CObj [(js "items", Store.VRef 1)];
   Store.CArr [Store.VStr (js "a"); Store.VStr (js "b")]].

Definition empty_store_engine : @Store.Engine IntNumbers.ops :=
  {| Store.templates := ∅; Store.helpers := ∅ |}.

(** ** More of the evaluator *)

Section MoreEvaluator.

Context {NO : NumberOps}.

(** getTemplate (lines 72-74): [Map.prototype.get], which answers
    [undefined] for a name that is not registered. *)
Definition getTemplate (name : jstring) (E : @Engine NO) : JV NO :=
  default JUndef (templates E !! name).

End MoreEvaluator.

(** The text at a position opens a construct of the evaluator: two opening
    braces and then a word character or the block sigil [#].  Every
    expression of the four passes needs this at the position it matches. *)
Definition opens_construct (s : jstring) : bool :=
  match s with
  | c1 :: c2 :: c3 :: _ =>
      char_eqb c1 LBRACE && char_eqb c2 LBRACE
      && (is_word c3 || char_eqb c3 35)
  | _ => false
  end.

(** Text in which no position opens a construct. *)
Fixpoint brace_inert (s : jstring) : bool :=
  match s with
  | [] => true
  | _ :: s' => negb (opens_construct s) && brace_inert s'
  end.


(** A quoted span as a helper call writes it in a template: no quote and
    no closing brace inside. *)
Definition quotable (s : jstring) : bool :=
  forallb not_quote s && forallb not_rbrace s.

Definition quoted (s : jstring) : jstring := QUOTE :: s ++ [QUOTE].

(** The characters of a dotted path. *)
Definition path_char (c : char) : bool := is_word c || char_eqb c DOT.

(** Text without a dollar sign, in which [String.prototype.replace] finds
    no replacement pattern. *)
Definition no_dollar (s : jstring) : bool :=
  forallb (fun c => negb (char_eqb c DOLLAR)) s.

(** What lines 161-163 hand to [replace] for an item, as a string. *)
Definition this_text {NO : NumberOps} (item : JV NO) : jstring :=
  if typeof_object item then JSON_stringify item else ToString item.

(** A loop whose body is the current item. *)
Definition each_this : jstring := js "{{#each items}}{{this}}{{/each}}".

(** ** registerDefaultHelpers (lines 17-57)

    The five helpers of the constructor.  What they call on their
    arguments beyond the conversions above is built into the language:
    upper-casing, the comparison [<=], [substring] and the methods of
    [Date]. *)
Record HelperBuiltins (NO : NumberOps) : Type := {
  (** [s.toUpperCase()]. *)
  toUpperCase : jstring -> jstring;
  (** [a <= b]. *)
  js_le : JV NO -> JV NO -> bool;
  (** [s.substring(0, x)]. *)
  substring_0 : jstring -> JV NO -> jstring;
  (** [new Date(date).toLocaleDateString()]. *)
  date_short : JV NO -> jstring;
  (** [new Date(date).toLocaleDateString('en-US', {year: 'numeric',
      month: 'long', day: 'numeric'})]. *)
  date_long : JV NO -> jstring;
  (** [new Date(date).toISOString()], which throws on an invalid date. *)
  date_iso : JV NO -> Res jstring
}.
Arguments toUpperCase {NO} _ _.
Arguments js_le {NO} _ _ _.
Arguments substring_0 {NO} _ _ _.
Arguments date_short {NO} _ _.
Arguments date_long {NO} _ _.
Arguments date_iso {NO} _ _.

Section DefaultHelpers.

Context {NO : NumberOps} (HB : HelperBuiltins NO).

(** The [i]-th parameter of a call: [undefined] when the call passes fewer
    arguments. *)
Definition arg (i : nat) (args : list (JV NO)) : JV NO := nth i args JUndef.

(** A parameter with a default value, which applies when the argument is
    [undefined]. *)
Definition arg_default (i : nat) (dflt : JV NO) (args : list (JV NO))
  : JV NO :=
  match arg i args with JUndef => dflt | v => v end.

(** Lines 19-32. *)
Definition formatDate (args : list (JV NO)) : Res (JV NO) :=
  let date := arg 0 args in
  let format := arg_default 1 (JStr (js "short")) args in
  if negb (truthy date) then Ok (JStr [])
  else
    match format with
    | JStr f =>
        if jstring_eqb f (js "short") then Ok (JStr (date_short HB date))
        else if jstring_eqb f (js "long") then Ok (JStr (date_long HB date))
        else mapR JStr (date_iso HB date)
    | _ => mapR JStr (date_iso HB date)
    end.

(** Lines 35-38.  Only a string has [charAt]. *)
Definition capitalize (args : list (JV NO)) : Res (JV NO) :=
  let str := arg 0 args in
  if negb (truthy str) then Ok (JStr [])
  else
    match str with
    | JStr (c :: rest) => Ok (JStr (toUpperCase HB [c] ++ rest))
    | _ => Throw
    end.

(** The text of an element in [Array.prototype.join]. *)
Definition element_text (e : JV NO) : jstring :=
  if is_nullish e then [] else ToString e.

(** Lines 41-44. *)
Definition join (args : list (JV NO)) : Res (JV NO) :=
  let separator := arg_default 1 (JStr (js ", ")) args in
  match arg 0 args with
  | JArr arr =>
      Ok (JStr (join_with (ToString separator) (List.map element_text arr)))
  | _ => Ok (JStr [])
  end.

(** Lines 47-51.  Only a string has [substring]. *)
Definition truncate (args : list (JV NO)) : Res (JV NO) :=
  let str := arg 0 args in
  let length := arg_default 1 (JNum (num_of_nat NO 100)) args in
  if negb (truthy str) then Ok (JStr [])
  else if js_le HB (prop_of str (js "length")) length then Ok str
  else
    match str with
    | JStr s => Ok (JStr (substring_0 HB s length ++ js "..."))
    | _ => Throw
    end.

(** Lines 54-56. *)
Definition if_helper (args : list (JV NO)) : Res (JV NO) :=
  let condition := arg 0 args in
  let trueValue := arg 1 args in
  let falseValue := arg_default 2 (JStr []) args in
  Ok (if truthy condition then trueValue else falseValue).

Definition registerDefaultHelpers (E : @Engine NO) : @Engine NO :=
  registerHelper (js "if") if_helper
    (registerHelper (js "truncate") truncate
      (registerHelper (js "join") join
        (registerHelper (js "capitalize") capitalize
          (registerHelper (js "formatDate") formatDate E)))).

(** The constructor (lines 8-12). *)
Definition new_TemplateEngine : @Engine NO :=
  registerDefaultHelpers {| templates := ∅; helpers := ∅ |}.

End DefaultHelpers.

(** ** The template registry in registration order

    [this.templates] is a [Map], which lists its entries in the order in
    which their keys were first set; [getTemplateNames] shows that order.
    The entries are kept as a list here, [templates] of [Engine] being the
    view of the same map that a lookup sees. *)
Section TemplateNames.

Context {NO : NumberOps}.

(** [this.templates.set(name, template)] on the entries. *)
Definition set_template (name : jstring) (template : JV NO)
    (entries : list (jstring * JV NO)) : list (jstring * JV NO) :=
  obj_set name template entries.

(** getTemplateNames (lines 79-81): [Array.from(this.templates.keys())]. *)
Definition getTemplateNames (entries : list (jstring * JV NO))
  : list jstring :=
  List.map fst entries.

(** The registry of the entries, as [render] and [getTemplate] read it. *)
Definition templates_of (entries : list (jstring * JV NO))
  : gmap jstring (JV NO) :=
  list_to_map entries.

End TemplateNames.

(** ** The claims in their own words

    Definitions that follow the wording of a claim rather than the source,
    to be compared with the source's. *)


(** Argument parsing as the unamended claim has it: the quotes of a quoted
    token are stripped and every token is then classified as a boolean, a
    number or a data path. *)
Definition parse_part_as_claimed {NO : NumberOps} (data : JV NO)
    (part : jstring) : JV NO :=
  let token :=
    if starts_with_quote part && ends_with_quote part
    then slice_1_m1 part else part in
  if jstring_eqb token (js "true") then JBool true
  else if jstring_eqb token (js "false") then JBool false
  else match string_to_number NO token with
       | Some n => JNum n
       | None => getValueByPath data token
       end.

Definition parseHelperArgs_as_claimed {NO : NumberOps}
    (argsString : jstring) (data : JV NO) : list (JV NO) :=
  List.map (parse_part_as_claimed data) (arg_parts argsString).

(** Argument parsing as the amended claim has it.  An argument is a bare
    word or a double-quoted span; a quoted span is a string literal and
    only a bare word is classified. *)
Inductive arg_token : Type :=
  | Bare (w : jstring)
  | Quoted (body : jstring).

Definition token_text (t : arg_token) : jstring :=
  match t with
  | Bare w => w
  | Quoted body => QUOTE :: body ++ [QUOTE]
  end.

Definition token_ok (t : arg_token) : bool :=
  match t with
  | Bare w => negb (is_nil w) && forallb is_bare w
  | Quoted body => forallb not_quote body
  end.

Definition token_value {NO : NumberOps} (data : JV NO) (t : arg_token)
  : JV NO :=
  match t with
  | Quoted body => JStr body
  | Bare w =>
      if jstring_eqb w (js "true") then JBool true
      else if jstring_eqb w (js "false") then JBool false
      else match string_to_number NO w with
           | Some n => JNum n
           | None => getValueByPath data w
           end
  end.

(** The argument text of a list of tokens, each followed by its white
    space; only the last token may go without. *)
Fixpoint args_text (ts : list (arg_token * jstring)) : jstring :=
  match ts with
  | [] => []
  | (t, ws) :: r => token_text t ++ ws ++ args_text r
  end.

Fixpoint separated (ts : list (arg_token * jstring)) : bool :=
  match ts with
  | [] => true
  | (t, ws) :: r =>
      token_ok t && forallb is_space ws && (negb (is_nil ws) || is_nil r)
      && separated r
  end.

(** The splitting of an argument text as the amended claim has it, for
    every text.  The text is read from the left, [cur] being the token
    under construction.  White space closes the token.  A double quote
    that has another double quote after it opens a span: the two quotes
    and all that stands between them, white space included, go into the
    token.  A double quote that has none after it closes the token and is
    dropped.  Every other character goes into the token. *)
Definition close_token (cur : jstring) : list jstring :=
  if is_nil cur then [] else [cur].

Definition has_quote (s : jstring) : bool :=
  existsb (fun c => char_eqb c QUOTE) s.

Fixpoint split_args (cur : jstring) (in_span : bool) (s : jstring)
  : list jstring :=
  match s with
  | [] => close_token cur
  | c :: s' =>
      if in_span then split_args (cur ++ [c]) (negb (char_eqb c QUOTE)) s'
      else if char_eqb c QUOTE then
        if has_quote s' then split_args (cur ++ [c]) true s'
        else close_token cur ++ split_args [] false s'
      else if is_space c then close_token cur ++ split_args [] false s'
      else split_args (cur ++ [c]) false s'
  end.

Definition tokens_as_amended (argsString : jstring) : list jstring :=
  split_args [] false argsString.

(** The value of a token as the amended claim has it: a token that begins
    and ends with a double quote is the string between the two, any other
    token is classified as a bare word is. *)
Definition argument_as_amended {NO : NumberOps} (data : JV NO)
    (token : jstring) : JV NO :=
  if starts_with_quote token && ends_with_quote token
  then JStr (slice_1_m1 token)
  else token_value data (Bare token).

(** Built-ins for the concrete runs: upper-casing of the ASCII letters,
    comparison and [substring] on integers; no run formats a date, and
    every value is taken as an invalid one. *)
Definition ascii_upper (c : char) : char :=
  if (97 <=? c) && (c <=? 122) then c - 32 else c.

Definition int_builtins : HelperBuiltins IntNumbers.ops := {|
  toUpperCase := List.map ascii_upper;
  js_le := fun a b : IV =>
    match a, b with
    | JNum x, JNum y => Z.leb x y
    | _, _ => false
    end;
  substring_0 := fun s (x : IV) =>
    match x with
    | JNum z => firstn (Z.to_nat z) s
    | _ => []
    end;
  date_short := fun _ => js "Invalid Date";
  date_long := fun _ => js "Invalid Date";
  date_iso := fun _ => Throw
|}.

(** An evaluator with one helper, [bang], which answers an exclamation
    mark whatever it is given. *)
Definition bang_engine : @Engine IntNumbers.ops :=
  registerHelper (js "bang") (fun _ => Ok (str "!")) empty_engine.

(** * Properties *)

Section ScannerFacts.

Lemma strip_prefix_app (p s : jstring) : strip_prefix p (p ++ s) = Some s.
Proof.
  induction p as [|c p IH]; simpl; [reflexivity|].
  unfold char_eqb. rewrite N.eqb_refl. exact IH.
Qed.

Lemma strip_prefix_Some (p s r : jstring) :
  strip_prefix p s = Some r -> s = p ++ r.
Proof.
  revert s. induction p as [|c p IH]; intros s H; simpl in *.
  - congruence.
  - destruct s as [|d s]; [discriminate|].
    unfold char_eqb in H. destruct (N.eqb_spec c d); [|discriminate].
    subst d. f_equal. apply IH, H.
Qed.

Lemma span_spec (f : char -> bool) (s a b : jstring) :
  span f s = (a, b) -> s = a ++ b /\ forallb f a = true.
Proof.
  revert a b. induction s as [|c s IH]; intros a b H; simpl in H.
  - inversion H; subst. split; reflexivity.
  - destruct (f c) eqn:Hc.
    + destruct (span f s) as [a' b'] eqn:Hs. inversion H; subst.
      destruct (IH a' b eq_refl) as [-> Ha]. split; [reflexivity|].
      simpl. rewrite Hc. exact Ha.
    + inversion H; subst. split; reflexivity.
Qed.

Lemma span_app (f : char -> bool) (a b : jstring) :
  forallb f a = true -> stops f b -> span f (a ++ b) = (a, b).
Proof.
  intros Ha Hb. induction a as [|c a IH]; simpl in *.
  - destruct b as [|d b]; [reflexivity|]. simpl in *. rewrite Hb. reflexivity.
  - apply andb_prop in Ha as [Hc Ha]. rewrite Hc, (IH Ha). reflexivity.
Qed.

Lemma find_sub_Some (p s a b : jstring) :
  find_sub p s = Some (a, b) -> s = a ++ p ++ b.
Proof.
  revert a b. induction s as [|c s IH]; intros a b H; simpl in H.
  - destruct (strip_prefix p []) eqn:Hp; [|discriminate].
    inversion H; subst. apply strip_prefix_Some in Hp. exact Hp.
  - destruct (strip_prefix p (c :: s)) eqn:Hp.
    + inversion H; subst. apply strip_prefix_Some in Hp. exact Hp.
    + destruct (find_sub p s) as [[a' b']|] eqn:Hs; [|discriminate].
      inversion H; subst. rewrite (IH a' b eq_refl). reflexivity.
Qed.

(** An occurrence in a suffix is an occurrence in the whole text. *)
Lemma find_sub_None_suffix (p a s : jstring) :
  find_sub p (a ++ s) = None -> find_sub p s = None.
Proof.
  induction a as [|c a IH]; simpl; [tauto|].
  destruct (strip_prefix p (c :: a ++ s)); [discriminate|].
  destruct (find_sub p (a ++ s)) as [[? ?]|]; [discriminate|].
  intros _. apply IH. reflexivity.
Qed.

Lemma find_sub_here (p b : jstring) : find_sub p (p ++ b) = Some ([], b).
Proof.
  destruct (p ++ b) eqn:E; simpl; rewrite <- E, strip_prefix_app; reflexivity.
Qed.

Lemma scan_path_cons (c : char) (s : jstring) :
  scan_path (c :: s) =
  if is_word c then let '(a, b) := scan_path s in (c :: a, b)
  else if char_eqb c DOT then
    match s with
    | d :: _ =>
        if is_word d then let '(a, b) := scan_path s in (c :: a, b)
        else ([], c :: s)
    | [] => ([], c :: s)
    end
  else ([], c :: s).
Proof. reflexivity. Qed.

Lemma scan_path_app (p r : jstring) :
  scan_path p = (p, []) -> stops (fun c => is_word c || char_eqb c DOT) r ->
  scan_path (p ++ r) = (p, r).
Proof.
  intros Hp Hr. induction p as [|c p IH].
  - simpl. destruct r as [|d r]; [reflexivity|]. simpl in Hr.
    apply orb_false_elim in Hr as [Hw Hd]. rewrite scan_path_cons, Hw, Hd.
    reflexivity.
  - rewrite <- app_comm_cons. rewrite scan_path_cons in Hp |- *.
    destruct (is_word c).
    + destruct (scan_path p) as [a b] eqn:Hs. inversion Hp; subst.
      rewrite IH; reflexivity.
    + destruct (char_eqb c DOT); [|discriminate].
      destruct p as [|d p]; [discriminate|]. rewrite <- app_comm_cons.
      destruct (is_word d); [|discriminate].
      rewrite app_comm_cons.
      destruct (scan_path (d :: p)) as [a b] eqn:Hs. inversion Hp; subst.
      rewrite IH; reflexivity.
Qed.

Lemma match_path_app (p r : jstring) :
  is_path p -> stops (fun c => is_word c || char_eqb c DOT) r ->
  match_path (p ++ r) = Some (p, r).
Proof.
  unfold is_path, match_path. intros Hp Hr.
  destruct p as [|c p]; [discriminate|]. simpl app. cbv beta iota.
  destruct (is_word c); [|discriminate].
  injection Hp as Hs.
  rewrite app_comm_cons, (scan_path_app (c :: p) r Hs Hr). reflexivity.
Qed.

Lemma is_word_range (c : char) : is_word c = true -> 48 <= c <= 122.
Proof.
  unfold is_word.
  rewrite !orb_true_iff, !andb_true_iff, !N.leb_le, N.eqb_eq. lia.
Qed.

Lemma word_not_space (c : char) : is_word c = true -> is_space c = false.
Proof.
  intros H. apply is_word_range in H. unfold is_space.
  rewrite !orb_false_iff, !andb_false_iff, !N.leb_gt, !N.eqb_neq. lia.
Qed.

Lemma match_open_app (kw ws p r : jstring) :
  ws <> [] -> forallb is_space ws = true -> is_path p ->
  match_open kw (kw ++ ws ++ p ++ js "}}" ++ r) = Some (p, r).
Proof.
  intros Hne Hws Hp. unfold match_open. rewrite strip_prefix_app.
  pose proof word_not_space as Hw.
  rewrite span_app; auto.
  - destruct ws; [congruence|]. simpl is_nil. cbv iota.
    rewrite (match_path_app p _ Hp) by reflexivity.
    rewrite strip_prefix_app. reflexivity.
  - unfold is_path, match_path in Hp. destruct p as [|c p]; [discriminate|].
    simpl. destruct (is_word c) eqn:Hc; [|discriminate]. auto.
Qed.

End ScannerFacts.

Section ReplaceFacts.

Context {C : Type} (regex : jstring -> option (C * jstring)).

Lemma bindR_assoc {A B D} (r : Res A) (f : A -> Res B) (g : B -> Res D) :
  bindR (bindR r f) g = bindR r (fun a => bindR (f a) g).
Proof. destruct r; reflexivity. Qed.

Lemma replace_from_cons (cb : C -> jstring -> Res jstring) (skip : nat)
    (c : char) (s : jstring) :
  replace_from regex cb skip (c :: s) =
  match skip with
  | S k => replace_from regex cb k s
  | O =>
      match regex (c :: s) with
      | Some (caps, rest) =>
          let n := (length (c :: s) - length rest)%nat in
          r <- cb caps (firstn n (c :: s)) ;;;
          out <- replace_from regex cb (n - 1) s ;;;
          Ok (r ++ out)
      | None => out <- replace_from regex cb 0 s ;;; Ok (c :: out)
      end
  end.
Proof. destruct skip; reflexivity. Qed.

Lemma replace_from_skip (cb : C -> jstring -> Res jstring)
    (m rest : jstring) :
  replace_from regex cb (length m) (m ++ rest) = replace_from regex cb 0 rest.
Proof.
  induction m as [|c m IH]; [reflexivity|].
  rewrite <- app_comm_cons, replace_from_cons. exact IH.
Qed.

(** At a match: the replacement, then the scan of what follows the match. *)
Lemma replace_all_match (cb : C -> jstring -> Res jstring)
    (m rest : jstring) (caps : C) :
  m <> [] -> regex (m ++ rest) = Some (caps, rest) ->
  replace_all regex cb (m ++ rest) =
  (r <- cb caps m ;;; out <- replace_all regex cb rest ;;; Ok (r ++ out)).
Proof.
  intros Hm Hr. destruct m as [|c m]; [congruence|]. unfold replace_all.
  rewrite <- app_comm_cons, replace_from_cons. rewrite app_comm_cons, Hr.
  cbv zeta.
  match goal with
  | |- context [firstn ?n _] =>
      replace n with (length (c :: m)) by (rewrite length_app; lia)
  end.
  rewrite take_app_length. simpl length.
  replace (S (length m) - 1)%nat with (length m) by lia.
  rewrite replace_from_skip. reflexivity.
Qed.

Lemma replace_all_step (cb : C -> jstring -> Res jstring) (c : char)
    (s : jstring) :
  regex (c :: s) = None ->
  replace_all regex cb (c :: s) =
  (out <- replace_all regex cb s ;;; Ok (c :: out)).
Proof.
  intros H. unfold replace_all. rewrite replace_from_cons, H. reflexivity.
Qed.

(** Text in which the expression matches nowhere is returned as it is. *)
Lemma replace_all_untouched (cb : C -> jstring -> Res jstring) (s : jstring) :
  (forall a b, s = a ++ b -> regex b = None) -> replace_all regex cb s = Ok s.
Proof.
  induction s as [|c s IH]; intros H; [reflexivity|].
  rewrite replace_all_step by (apply (H []); reflexivity).
  rewrite IH; [reflexivity|].
  intros a b ->. apply (H (c :: a)). reflexivity.
Qed.


Lemma replace_all_prefix (cb : C -> jstring -> Res jstring)
    (pre s : jstring) :
  starts_at_lbrace regex -> no_lbrace pre = true ->
  replace_all regex cb (pre ++ s) =
  (out <- replace_all regex cb s ;;; Ok (pre ++ out)).
Proof.
  intros Hre Hpre. induction pre as [|c pre IH]; simpl app.
  - destruct (replace_all regex cb s); reflexivity.
  - simpl in Hpre. apply andb_prop in Hpre as [Hc Hpre].
    apply negb_true_iff in Hc.
    rewrite replace_all_step by (apply Hre, Hc).
    rewrite (IH Hpre), bindR_assoc. reflexivity.
Qed.

Lemma replace_pure_from_cons (cb : C -> jstring -> jstring) (skip : nat)
    (c : char) (s : jstring) :
  replace_pure_from regex cb skip (c :: s) =
  match skip with
  | S k => replace_pure_from regex cb k s
  | O =>
      match regex (c :: s) with
      | Some (caps, rest) =>
          let n := (length (c :: s) - length rest)%nat in
          cb caps (firstn n (c :: s)) ++ replace_pure_from regex cb (n - 1) s
      | None => c :: replace_pure_from regex cb 0 s
      end
  end.
Proof. destruct skip; reflexivity. Qed.

Lemma replace_pure_from_skip (cb : C -> jstring -> jstring)
    (m rest : jstring) :
  replace_pure_from regex cb (length m) (m ++ rest) =
  replace_pure_from regex cb 0 rest.
Proof.
  induction m as [|c m IH]; [reflexivity|].
  rewrite <- app_comm_cons, replace_pure_from_cons. exact IH.
Qed.

Lemma replace_pure_match (cb : C -> jstring -> jstring) (m rest : jstring)
    (caps : C) :
  m <> [] -> regex (m ++ rest) = Some (caps, rest) ->
  replace_pure regex cb (m ++ rest) = cb caps m ++ replace_pure regex cb rest.
Proof.
  intros Hm Hr. destruct m as [|c m]; [congruence|]. unfold replace_pure.
  rewrite <- app_comm_cons, replace_pure_from_cons. rewrite app_comm_cons, Hr.
  cbv zeta.
  match goal with
  | |- context [firstn ?n _] =>
      replace n with (length (c :: m)) by (rewrite length_app; lia)
  end.
  rewrite take_app_length. simpl length.
  replace (S (length m) - 1)%nat with (length m) by lia.
  rewrite replace_pure_from_skip. reflexivity.
Qed.

Lemma replace_pure_prefix (cb : C -> jstring -> jstring) (pre s : jstring) :
  starts_at_lbrace regex -> no_lbrace pre = true ->
  replace_pure regex cb (pre ++ s) = pre ++ replace_pure regex cb s.
Proof.
  intros Hre Hpre. induction pre as [|c pre IH]; simpl app; [reflexivity|].
  simpl in Hpre. apply andb_prop in Hpre as [Hc Hpre].
  apply negb_true_iff in Hc. unfold replace_pure in *.
  rewrite replace_pure_from_cons, (Hre c _ Hc), (IH Hpre). reflexivity.
Qed.

(** A callback that always returns makes [replace] always return. *)
Lemma replace_from_pure (cb : C -> jstring -> jstring) (skip : nat)
    (s : jstring) :
  replace_from regex (fun caps m => Ok (cb caps m)) skip s =
  Ok (replace_pure_from regex cb skip s).
Proof.
  revert skip. induction s as [|c s IH]; intros skip; [reflexivity|].
  rewrite replace_from_cons, replace_pure_from_cons.
  destruct skip; [|apply IH].
  destruct (regex (c :: s)) as [[caps rest]|]; cbv zeta; rewrite IH;
    reflexivity.
Qed.


End ReplaceFacts.

Section RegexFacts.

Lemma strip_prefix_first (p : jstring) (c : char) (s : jstring) :
  head p = Some LBRACE -> char_eqb c LBRACE = false ->
  strip_prefix p (c :: s) = None.
Proof.
  destruct p as [|d p]; [discriminate|]. simpl. intros [= ->] Hc.
  unfold char_eqb in *. rewrite N.eqb_sym, Hc. reflexivity.
Qed.

Lemma match_open_first (kw : jstring) (c : char) (s : jstring) :
  head kw = Some LBRACE -> char_eqb c LBRACE = false ->
  match_open kw (c :: s) = None.
Proof.
  intros Hk Hc. unfold match_open.
  rewrite (strip_prefix_first kw c s Hk Hc). reflexivity.
Qed.

Lemma loopRegex_lbrace : starts_at_lbrace loopRegex.
Proof.
  intros c s Hc. unfold loopRegex.
  rewrite match_open_first; [reflexivity| reflexivity | exact Hc].
Qed.

Lemma ifElseRegex_lbrace : starts_at_lbrace ifElseRegex.
Proof.
  intros c s Hc. unfold ifElseRegex.
  rewrite match_open_first; [reflexivity| reflexivity | exact Hc].
Qed.

Lemma ifRegex_lbrace : starts_at_lbrace ifRegex.
Proof.
  intros c s Hc. unfold ifRegex.
  rewrite match_open_first; [reflexivity| reflexivity | exact Hc].
Qed.

Lemma varRegex_lbrace : starts_at_lbrace varRegex.
Proof.
  intros c s Hc. unfold varRegex.
  rewrite strip_prefix_first; [reflexivity| reflexivity | exact Hc].
Qed.

Lemma helperRegex_lbrace : starts_at_lbrace helperRegex.
Proof.
  intros c s Hc. unfold helperRegex.
  rewrite strip_prefix_first; [reflexivity| reflexivity | exact Hc].
Qed.

(** The variable expression at a reference [{{p}}]. *)
Lemma varRegex_ref (p rest : jstring) :
  is_path p ->
  varRegex (js "{{" ++ p ++ js "}}" ++ rest) = Some (p, rest).
Proof.
  intros Hp. unfold varRegex. rewrite strip_prefix_app.
  rewrite (match_path_app p _ Hp) by reflexivity.
  rewrite strip_prefix_app. reflexivity.
Qed.

Lemma scan_path_split (t q r : jstring) :
  scan_path t = (q, r) -> t = q ++ r.
Proof.
  revert q r. induction t as [|d t IH]; intros q r H.
  - simpl in H. inversion H. reflexivity.
  - rewrite scan_path_cons in H. destruct (is_word d).
    + destruct (scan_path t) as [a b] eqn:Ht. inversion H; subst.
      rewrite (IH a r eq_refl). reflexivity.
    + destruct (char_eqb d DOT); [|inversion H; reflexivity].
      destruct t as [|e t]; [inversion H; reflexivity|].
      destruct (is_word e); [|inversion H; reflexivity].
      destruct (scan_path (e :: t)) as [a b] eqn:Ht. inversion H; subst.
      rewrite (IH a r eq_refl). reflexivity.
Qed.

(** What a match of an opening marker leaves is a suffix of the text. *)
Lemma match_open_suffix (kw s p r : jstring) :
  match_open kw s = Some (p, r) -> exists a, s = a ++ r.
Proof.
  unfold match_open. intros H.
  destruct (strip_prefix kw s) as [r0|] eqn:H0; [|discriminate].
  destruct (span is_space r0) as [ws r1] eqn:H1.
  destruct (is_nil ws); [discriminate|].
  destruct (match_path r1) as [[q r2]|] eqn:H2; [|discriminate].
  destruct (strip_prefix (js "}}") r2) as [r3|] eqn:H3; [|discriminate].
  injection H as Hq Hr.
  apply strip_prefix_Some in H0, H3. apply span_spec in H1 as [H1 _].
  assert (exists b, r1 = b ++ r2) as [b Hb].
  { unfold match_path in H2. destruct r1 as [|c r1]; [discriminate|].
    destruct (is_word c); [|discriminate].
    exists q. apply scan_path_split. congruence. }
  subst. exists (kw ++ ws ++ b ++ js "}}"). rewrite <- !app_assoc. reflexivity.
Qed.

End RegexFacts.

Section Claims.

Context {NO : NumberOps}.

Lemma path_head_word (p : jstring) :
  is_path p -> exists c p', p = c :: p' /\ is_word c = true.
Proof.
  unfold is_path, match_path. destruct p as [|c p]; [discriminate|].
  destruct (is_word c) eqn:Hc; [|discriminate]. eauto.
Qed.

(** C4. In the variable pass a reference [{{p}}] with a dotted path [p] is
    replaced by the empty string when [p] resolves to [null] or
    [undefined], by the JSON serialization when it resolves to an object or
    an array, and by the string conversion of the value otherwise; the text
    before it that holds no brace is kept and the pass goes on behind it. *)
Theorem C4_variable_substitution (data : JV NO) (pre p post : jstring) :
  no_lbrace pre = true -> is_path p ->
  processVariables (pre ++ js "{{" ++ p ++ js "}}" ++ post) data =
  pre ++
  match getValueByPath data p with
  | JUndef | JNull => []
  | JArr _ | JObj _ => JSON_stringify (getValueByPath data p)
  | v => ToString v
  end ++ processVariables post data.
Proof.
  intros Hpre Hp. unfold processVariables.
  rewrite (replace_pure_prefix _ _ _ _ varRegex_lbrace Hpre). f_equal.
  rewrite !app_assoc, <- (app_assoc _ p), <- (app_assoc (js "{{")).
  rewrite (replace_pure_match varRegex _ (js "{{" ++ p ++ js "}}") post p).
  - f_equal. unfold var_callback.
    destruct (path_head_word p Hp) as (c & p' & -> & Hc).
    apply is_word_range in Hc.
    replace (char_eqb c 35 || char_eqb c 47) with false.
    + destruct (getValueByPath data (c :: p')) as [| |[]| | | |]; reflexivity.
    + symmetry. apply orb_false_iff. unfold char_eqb.
      rewrite !N.eqb_neq. lia.
  - discriminate.
  - rewrite <- !app_assoc. apply varRegex_ref, Hp.
Qed.

(** C5. On a template string that is not a registered name the compiled
    function and [render] return the same, at every recursion depth. *)
Theorem C5_compile_is_render (E : Engine) (t : jstring) (data : JV NO)
    (fuel : nat) :
  templates E !! t = None ->
  compile t E fuel data = render E fuel t data.
Proof.
  intros H. unfold compile, render. rewrite H. reflexivity.
Qed.

(** C10. For a name registered to a template object, [render] runs the
    pipeline on the object's [html] string when that string is truthy;
    when [html] is falsy (the empty string in particular) the object itself
    is handed to the pipeline as the markup, and the result is not the
    empty string. *)
Theorem C10_falsy_markup_falls_back (E : Engine) (name : jstring)
    (props : list (jstring * JV NO)) (data : JV NO) (fuel : nat) :
  templates E !! name = Some (JObj props) ->
  (forall s, prop_of (JObj props) (js "html") = JStr s -> s <> [] ->
     render E fuel name data = processTemplate E fuel s data) /\
  (truthy (prop_of (JObj props) (js "html")) = false ->
     render E fuel name data = processTemplateV E fuel (JObj props) data /\
     render E fuel name data <> Ok []).
Proof.
  intros H. unfold render. rewrite H. cbn [truthy]. split.
  - intros s Hs Hne. cbv zeta. rewrite Hs.
    destruct s; [congruence|]. reflexivity.
  - intros Hf. cbv zeta. rewrite Hf. split; [reflexivity|]. discriminate.
Qed.

Lemma span_stops (f : char -> bool) (s a b : jstring) :
  span f s = (a, b) -> stops f b.
Proof.
  revert a b. induction s as [|c s IH]; intros a b H; simpl in H.
  - inversion H. exact I.
  - destruct (f c) eqn:Hc.
    + destruct (span f s) as [a' b'] eqn:Hs. inversion H; subst.
      apply (IH a' b eq_refl).
    + inversion H; subst. exact Hc.
Qed.

Lemma stops_app (f : char -> bool) (b t : jstring) :
  stops f b -> stops f t -> stops f (b ++ t).
Proof. destruct b; simpl; auto. Qed.

(** The helper expression at a construct [{{name ws args}}]. *)
Lemma helperRegex_construct (name ws args rest : jstring) :
  name <> [] -> forallb is_word name = true ->
  ws <> [] -> forallb is_space ws = true ->
  args <> [] -> forallb not_rbrace args = true ->
  exists a,
    helperRegex (js "{{" ++ name ++ ws ++ args ++ js "}}" ++ rest)
    = Some ((name, a), rest).
Proof.
  intros Hn Hnw Hw Hws Ha Har. unfold helperRegex.
  rewrite strip_prefix_app.
  assert (Hsw : stops is_word (ws ++ args ++ js "}}" ++ rest)).
  { destruct ws as [|c ws]; [congruence|]. simpl in *.
    apply andb_prop in Hws as [Hc _].
    destruct (is_word c) eqn:Hwc; [|reflexivity].
    apply word_not_space in Hwc. congruence. }
  rewrite (span_app is_word name _ Hnw Hsw).
  destruct name as [|n0 name]; [congruence|]. cbn [is_nil].
  destruct (span is_space args) as [aw ab] eqn:Hsp.
  pose proof (span_stops _ _ _ _ Hsp) as Hst.
  apply span_spec in Hsp as [-> Haw].
  rewrite forallb_app in Har. apply andb_prop in Har as [_ Hab].
  rewrite <- (app_assoc aw ab), (app_assoc ws aw).
  rewrite (span_app is_space (ws ++ aw) (ab ++ js "}}" ++ rest)).
  2: { rewrite forallb_app, Hws, Haw. reflexivity. }
  2: { apply stops_app; [exact Hst | reflexivity]. }
  destruct ws as [|w0 ws]; [congruence|]. cbn [is_nil app].
  rewrite (span_app not_rbrace ab (js "}}" ++ rest) Hab) by reflexivity.
  rewrite strip_prefix_app.
  destruct ab as [|b0 ab]; [|eexists; reflexivity].
  rewrite app_nil_r in Ha.
  destruct (rev (w0 :: ws ++ aw)) as [|x [|y l]] eqn:Hrev.
  - apply (f_equal (@length _)) in Hrev. rewrite length_rev in Hrev.
    discriminate.
  - apply (f_equal (@length _)) in Hrev. rewrite length_rev in Hrev.
    simpl in Hrev. rewrite length_app in Hrev.
    destruct aw; [congruence|]. simpl in Hrev. lia.
  - eexists. reflexivity.
Qed.

(** C6. In the helper pass a construct [{{name args}}] whose name is not
    in the helper registry is left in the output as its own text, and the
    pass neither blanks it nor throws on it. *)
Theorem C6_unknown_helper_unmodified (E : Engine) (data : JV NO)
    (pre name ws args post : jstring) :
  helpers E !! name = None ->
  no_lbrace pre = true ->
  name <> [] -> forallb is_word name = true ->
  ws <> [] -> forallb is_space ws = true ->
  args <> [] -> forallb not_rbrace args = true ->
  processHelpers E (pre ++ (js "{{" ++ name ++ ws ++ args ++ js "}}") ++ post)
    data =
  (out <- processHelpers E post data ;;;
   Ok (pre ++ (js "{{" ++ name ++ ws ++ args ++ js "}}") ++ out)).
Proof.
  intros Hh Hpre Hn Hnw Hw Hws Ha Har. unfold processHelpers.
  rewrite (replace_all_prefix _ _ _ _ helperRegex_lbrace Hpre).
  destruct (helperRegex_construct name ws args post Hn Hnw Hw Hws Ha Har)
    as [a Hm].
  rewrite (replace_all_match helperRegex _ _ post (name, a)).
  - assert (Hc : forall m, helper_callback E data (name, a) m = Ok m)
      by (intros m; unfold helper_callback; cbv beta iota; rewrite Hh;
          reflexivity).
    rewrite Hc. cbn [bindR]. rewrite bindR_assoc. reflexivity.
  - discriminate.
  - rewrite <- Hm. f_equal. rewrite <- !app_assoc. reflexivity.
Qed.

Lemma bindR_Ok_r {A} (r : Res A) : bindR r Ok = r.
Proof. destruct r; reflexivity. Qed.

Lemma bindR_app_nil (r : Res (list N)) :
  (x <- r ;;; out <- Ok [] ;;; Ok (x ++ out)) = r.
Proof. destruct r; simpl; rewrite ?app_nil_r; reflexivity. Qed.

(** A text made of one match is replaced by what the callback returns. *)
Lemma replace_all_whole {C} (regex : jstring -> option (C * jstring))
    (cb : C -> jstring -> Res jstring) (t : jstring) (caps : C) :
  t <> [] -> regex t = Some (caps, []) -> replace_all regex cb t = cb caps t.
Proof.
  intros Ht Hr. rewrite <- (app_nil_r t) in Hr |- *.
  rewrite (replace_all_match regex cb t [] caps Ht Hr).
  rewrite app_nil_r. apply bindR_app_nil.
Qed.

(** Without an [{{else}}] marker the if/else expression matches nowhere. *)
Lemma ifElseRegex_nowhere (t : jstring) :
  find_sub (js "{{else}}") t = None ->
  forall a b, t = a ++ b -> ifElseRegex b = None.
Proof.
  intros Hn a b ->. unfold ifElseRegex.
  destruct (match_open (js "{{#if") b) as [[q r]|] eqn:Ho; [|reflexivity].
  apply match_open_suffix in Ho as [a' ->].
  rewrite app_assoc in Hn. apply find_sub_None_suffix in Hn.
  rewrite Hn. reflexivity.
Qed.

Lemma ifRegex_block (ws p X post : jstring) :
  ws <> [] -> forallb is_space ws = true -> is_path p ->
  find_sub (js "{{/if}}") (X ++ js "{{/if}}" ++ post) = Some (X, post) ->
  ifRegex (js "{{#if" ++ ws ++ p ++ js "}}" ++ X ++ js "{{/if}}" ++ post)
  = Some ((p, X), post).
Proof.
  intros Hw Hws Hp Hf. unfold ifRegex.
  rewrite (match_open_app _ ws p _ Hw Hws Hp), Hf. reflexivity.
Qed.

Lemma ifElseRegex_block (ws p A B post : jstring) :
  ws <> [] -> forallb is_space ws = true -> is_path p ->
  find_sub (js "{{else}}") (A ++ js "{{else}}" ++ B ++ js "{{/if}}" ++ post)
  = Some (A, B ++ js "{{/if}}" ++ post) ->
  find_sub (js "{{/if}}") (B ++ js "{{/if}}" ++ post) = Some (B, post) ->
  ifElseRegex (js "{{#if" ++ ws ++ p ++ js "}}" ++
               A ++ js "{{else}}" ++ B ++ js "{{/if}}" ++ post)
  = Some ((p, A, B), post).
Proof.
  intros Hw Hws Hp Hf1 Hf2. unfold ifElseRegex.
  rewrite (match_open_app _ ws p _ Hw Hws Hp), Hf1, Hf2. reflexivity.
Qed.

Section Conditionals.

Variable rec : jstring -> JV NO -> Res jstring.

Lemma if_only_block (data : JV NO) (ws p X : jstring) :
  ws <> [] -> forallb is_space ws = true -> is_path p ->
  find_sub (js "{{else}}")
    (js "{{#if" ++ ws ++ p ++ js "}}" ++ X ++ js "{{/if}}") = None ->
  find_sub (js "{{/if}}") (X ++ js "{{/if}}") = Some (X, []) ->
  processConditionals rec
    (js "{{#if" ++ ws ++ p ++ js "}}" ++ X ++ js "{{/if}}") data =
  if truthy (getValueByPath data p) then rec X data else Ok [].
Proof.
  intros Hw Hws Hp Hne Hf. unfold processConditionals, replaceIfElse.
  rewrite (replace_all_untouched ifElseRegex _ _ (ifElseRegex_nowhere _ Hne)).
  cbn [bindR]. unfold replaceIf.
  rewrite (replace_all_whole ifRegex _ _ (p, X)).
  - reflexivity.
  - discriminate.
  - pose proof (ifRegex_block ws p X [] Hw Hws Hp) as H.
    rewrite !app_nil_r in H. apply H, Hf.
Qed.

Lemma if_else_block (data : JV NO) (ws p A B : jstring) :
  ws <> [] -> forallb is_space ws = true -> is_path p ->
  find_sub (js "{{else}}") (A ++ js "{{else}}" ++ B ++ js "{{/if}}")
  = Some (A, B ++ js "{{/if}}") ->
  find_sub (js "{{/if}}") (B ++ js "{{/if}}") = Some (B, []) ->
  replaceIfElse rec
    (js "{{#if" ++ ws ++ p ++ js "}}" ++
     A ++ js "{{else}}" ++ B ++ js "{{/if}}") data =
  if truthy (getValueByPath data p) then rec A data else rec B data.
Proof.
  intros Hw Hws Hp Hf1 Hf2. unfold replaceIfElse.
  rewrite (replace_all_whole ifElseRegex _ _ (p, A, B)).
  - reflexivity.
  - discriminate.
  - pose proof (ifElseRegex_block ws p A B [] Hw Hws Hp) as H.
    rewrite !app_nil_r in H. apply H; assumption.
Qed.

End Conditionals.

(** A template that is one conditional block, each marker being the first
    of its kind after the opening marker: when [p] resolves to a falsy
    value the if-only form renders as the empty string and the if/else form
    is replaced by the pipeline run on the else-branch; when [p] resolves
    to a truthy value both forms are replaced by the pipeline run on the
    then-branch, against the same context. *)
Lemma conditional_single_block (E : Engine) (n : nat) (data : JV NO)
    (ws p X A B : jstring) :
  ws <> [] -> forallb is_space ws = true -> is_path p ->
  find_sub (js "{{else}}")
    (js "{{#if" ++ ws ++ p ++ js "}}" ++ X ++ js "{{/if}}") = None ->
  find_sub (js "{{/if}}") (X ++ js "{{/if}}") = Some (X, []) ->
  find_sub (js "{{else}}") (A ++ js "{{else}}" ++ B ++ js "{{/if}}")
  = Some (A, B ++ js "{{/if}}") ->
  find_sub (js "{{/if}}") (B ++ js "{{/if}}") = Some (B, []) ->
  let rec := processTemplate E n in
  let if_only := js "{{#if" ++ ws ++ p ++ js "}}" ++ X ++ js "{{/if}}" in
  let if_else :=
    js "{{#if" ++ ws ++ p ++ js "}}" ++
    A ++ js "{{else}}" ++ B ++ js "{{/if}}" in
  let branch :=
    if truthy (getValueByPath data p) then rec A data else rec B data in
  processConditionals rec if_only data
  = (if truthy (getValueByPath data p) then rec X data else Ok [])
  /\ replaceIfElse rec if_else data = branch
  /\ processConditionals rec if_else data
     = (r <- branch ;;; replaceIf rec r data).
Proof.
  intros Hw Hws Hp Hne HX HA HB rec if_only if_else branch.
  split; [|split].
  - apply if_only_block; assumption.
  - apply if_else_block; assumption.
  - unfold processConditionals. subst if_else branch.
    rewrite if_else_block by assumption. reflexivity.
Qed.

Lemma jstring_eqb_eq (a b : jstring) : jstring_eqb a b = true <-> a = b.
Proof.
  revert b. induction a as [|x a IH]; intros [|y b]; simpl;
    try (split; [discriminate|congruence]); [tauto|].
  unfold char_eqb. rewrite andb_true_iff, N.eqb_eq, IH.
  split; [intros [-> ->]; reflexivity | intros [= -> ->]; auto].
Qed.

Lemma jstring_eqb_refl (a : jstring) : jstring_eqb a a = true.
Proof. apply jstring_eqb_eq. reflexivity. Qed.

Lemma jstring_eqb_neq (a b : jstring) : a <> b -> jstring_eqb a b = false.
Proof.
  intros H. destruct (jstring_eqb a b) eqn:E; [|reflexivity].
  apply jstring_eqb_eq in E. contradiction.
Qed.

Lemma assoc_obj_set_eq {V} (k : jstring) (v : V) (ps : list (jstring * V)) :
  assoc k (obj_set k v ps) = Some v.
Proof.
  induction ps as [|[k' v'] ps IH]; simpl.
  - rewrite jstring_eqb_refl. reflexivity.
  - destruct (jstring_eqb k k') eqn:E; simpl.
    + rewrite jstring_eqb_refl. reflexivity.
    + rewrite E. exact IH.
Qed.

Lemma assoc_obj_set_neq {V} (k k' : jstring) (v : V)
    (ps : list (jstring * V)) :
  k <> k' -> assoc k (obj_set k' v ps) = assoc k ps.
Proof.
  intros Hne. induction ps as [|[k2 v2] ps IH]; simpl.
  - rewrite (jstring_eqb_neq k k' Hne). reflexivity.
  - destruct (jstring_eqb k' k2) eqn:E; simpl.
    + apply jstring_eqb_eq in E. subst k2.
      rewrite (jstring_eqb_neq k k' Hne). reflexivity.
    + destruct (jstring_eqb k k2); [reflexivity|exact IH].
Qed.


Lemma replace_from_ext {C} (regex : jstring -> option (C * jstring))
    (cb1 cb2 : C -> jstring -> Res jstring) (skip : nat) (s : jstring) :
  (forall c m, cb1 c m = cb2 c m) ->
  replace_from regex cb1 skip s = replace_from regex cb2 skip s.
Proof.
  intros H. revert skip. induction s as [|c s IH]; intros skip;
    [reflexivity|].
  rewrite !replace_from_cons. destruct skip; [|apply IH].
  destruct (regex (c :: s)) as [[caps rest]|]; cbv zeta; rewrite ?H, IH;
    reflexivity.
Qed.


Section Loops.

Variable rec : jstring -> JV NO -> Res jstring.


Lemma map_join_ext (f g : nat -> JV NO -> Res jstring) (index : nat)
    (items : list (JV NO)) :
  Forall (fun item => forall i, f i item = g i item) items ->
  map_join f index items = map_join g index items.
Proof.
  intros H. revert index. induction H as [|item items Hi _ IH]; intros index;
    [reflexivity|].
  simpl. rewrite Hi, IH. reflexivity.
Qed.

Lemma loopRegex_block (ws p content post : jstring) :
  ws <> [] -> forallb is_space ws = true -> is_path p ->
  find_sub (js "{{/each}}") (content ++ js "{{/each}}" ++ post)
  = Some (content, post) ->
  loopRegex (js "{{#each" ++ ws ++ p ++ js "}}" ++
             content ++ js "{{/each}}" ++ post)
  = Some ((p, content), post).
Proof.
  intros Hw Hws Hp Hf. unfold loopRegex.
  rewrite (match_open_app _ ws p _ Hw Hws Hp), Hf. reflexivity.
Qed.

(** The loop pass at a block: the callback, then the pass on what follows
    the block. *)
Lemma processLoops_block (data : JV NO) (ws p content post : jstring) :
  ws <> [] -> forallb is_space ws = true -> is_path p ->
  find_sub (js "{{/each}}") (content ++ js "{{/each}}" ++ post)
  = Some (content, post) ->
  processLoops rec
    ((js "{{#each" ++ ws ++ p ++ js "}}" ++ content ++ js "{{/each}}")
     ++ post) data =
  (r <- loop_callback rec data (p, content) ;;;
   out <- processLoops rec post data ;;;
   Ok (r ++ out)).
Proof.
  intros Hw Hws Hp Hf. unfold processLoops.
  rewrite (replace_all_match loopRegex
             (fun caps _ => loop_callback rec data caps) _ post (p, content)).
  - reflexivity.
  - discriminate.
  - rewrite <- (loopRegex_block ws p content post Hw Hws Hp Hf).
    f_equal. rewrite <- !app_assoc. reflexivity.
Qed.


End Loops.

Section ArgumentFacts.

Lemma arg_atom_stop (rest : jstring) :
  stops not_space rest -> arg_atom rest = None.
Proof.
  destruct rest as [|c rest]; [reflexivity|]. unfold not_space. simpl.
  intros H. apply negb_false_iff in H. unfold is_bare. rewrite H. simpl.
  destruct (char_eqb c QUOTE) eqn:E; [|reflexivity].
  apply N.eqb_eq in E. subst c. discriminate.
Qed.

Lemma arg_atoms_stop (rounds : nat) (rest : jstring) :
  stops not_space rest -> arg_atoms rounds rest = ([], rest).
Proof.
  intros H. destruct rounds; simpl; [reflexivity|].
  rewrite (arg_atom_stop rest H). reflexivity.
Qed.

Lemma stops_bare (rest : jstring) : stops not_space rest -> stops is_bare rest.
Proof.
  destruct rest as [|c rest]; [auto|]. unfold not_space, is_bare. simpl.
  intros H. apply negb_false_iff in H. rewrite H. reflexivity.
Qed.

Lemma arg_atom_token (t : arg_token) (rest : jstring) :
  token_ok t = true -> stops not_space rest ->
  arg_atom (token_text t ++ rest) = Some (token_text t, rest).
Proof.
  intros Hok Hst. destruct t as [w|body]; simpl in Hok |- *.
  - apply andb_prop in Hok as [Hne Hw].
    destruct w as [|c w]; [discriminate|]. simpl in Hw.
    apply andb_prop in Hw as [Hc Hw]. unfold arg_atom.
    rewrite <- app_comm_cons, Hc, app_comm_cons.
    rewrite (span_app is_bare (c :: w) rest); [reflexivity| |].
    + simpl. rewrite Hc. exact Hw.
    + apply stops_bare, Hst.
  - rewrite <- app_assoc.
    rewrite (span_app not_quote body ([QUOTE] ++ rest) Hok) by reflexivity.
    reflexivity.
Qed.

Lemma token_text_nonempty (t : arg_token) :
  token_ok t = true -> token_text t <> [].
Proof.
  destruct t as [[|c w]|body]; simpl; intros H; try discriminate.
Qed.

Lemma argRegex_token (t : arg_token) (rest : jstring) :
  token_ok t = true -> stops not_space rest ->
  argRegex (token_text t ++ rest) = Some (token_text t, rest).
Proof.
  intros Hok Hst. unfold argRegex.
  pose proof (token_text_nonempty t Hok) as Hne.
  destruct (length (token_text t ++ rest)) as [|k] eqn:El.
  { rewrite length_app in El. destruct (token_text t); [congruence|].
    discriminate. }
  cbn [arg_atoms].
  rewrite (arg_atom_token t rest Hok Hst), (arg_atoms_stop _ rest Hst).
  rewrite app_nil_r. destruct (token_text t); [congruence|]. reflexivity.
Qed.

Lemma match_all_from_cons (skip : nat) (c : char) (s : jstring) :
  match_all_from skip (c :: s) =
  match skip with
  | S k => match_all_from k s
  | O =>
      match argRegex (c :: s) with
      | Some (t, _) => t :: match_all_from (length t - 1) s
      | None => match_all_from 0 s
      end
  end.
Proof. destruct skip; reflexivity. Qed.

Lemma match_all_from_skip (m rest : jstring) :
  match_all_from (length m) (m ++ rest) = match_all_from 0 rest.
Proof.
  induction m as [|c m IH]; [reflexivity|].
  rewrite <- app_comm_cons, match_all_from_cons. exact IH.
Qed.

Lemma arg_parts_token (t : arg_token) (rest : jstring) :
  token_ok t = true -> stops not_space rest ->
  arg_parts (token_text t ++ rest) = token_text t :: arg_parts rest.
Proof.
  intros Hok Hst. unfold arg_parts.
  pose proof (argRegex_token t rest Hok Hst) as Hr.
  pose proof (token_text_nonempty t Hok) as Hne.
  destruct (token_text t) as [|c m]; [congruence|].
  rewrite <- app_comm_cons, match_all_from_cons.
  rewrite app_comm_cons, Hr. simpl length.
  replace (S (length m) - 1)%nat with (length m) by lia.
  rewrite match_all_from_skip. reflexivity.
Qed.

Lemma arg_parts_space (ws rest : jstring) :
  forallb is_space ws = true -> arg_parts (ws ++ rest) = arg_parts rest.
Proof.
  intros H. unfold arg_parts. induction ws as [|c ws IH]; [reflexivity|].
  simpl in H. apply andb_prop in H as [Hc Hws].
  rewrite <- app_comm_cons, match_all_from_cons.
  assert (Hn : argRegex (c :: ws ++ rest) = None).
  { unfold argRegex. simpl length. cbn [arg_atoms].
    rewrite arg_atom_stop; [reflexivity|].
    unfold not_space. simpl. rewrite Hc. reflexivity. }
  rewrite Hn. apply IH, Hws.
Qed.

Lemma arg_parts_tokens (ts : list (arg_token * jstring)) :
  separated ts = true -> arg_parts (args_text ts) = List.map (fun x => token_text (fst x)) ts.
Proof.
  induction ts as [|[t ws] r IH]; intros H; [reflexivity|].
  simpl in H. repeat (apply andb_prop in H as [H ?]).
  simpl args_text. rewrite arg_parts_token; [| assumption |].
  - rewrite arg_parts_space by assumption. simpl. f_equal. auto.
  - destruct ws as [|c ws].
    + destruct r; [exact I|discriminate].
    + unfold not_space. simpl in *.
      match goal with Hs : _ && forallb is_space ws = true |- _ =>
        apply andb_prop in Hs as [-> _] end.
      reflexivity.
Qed.

End ArgumentFacts.

Lemma ends_with_quote_quoted (body : jstring) :
  ends_with_quote (QUOTE :: body ++ [QUOTE]) = true.
Proof.
  unfold ends_with_quote. rewrite app_comm_cons, rev_app_distr. reflexivity.
Qed.

Lemma parse_part_token (data : JV NO) (t : arg_token) :
  token_ok t = true -> parse_part data (token_text t) = token_value data t.
Proof.
  intros Hok. destruct t as [w|body]; unfold parse_part; simpl token_text.
  - simpl in Hok. apply andb_prop in Hok as [_ Hw].
    destruct w as [|c w]; [reflexivity|]. simpl in Hw.
    apply andb_prop in Hw as [Hc _]. unfold is_bare in Hc.
    apply andb_prop in Hc as [_ Hq]. apply negb_true_iff in Hq.
    unfold starts_with_quote. rewrite Hq. reflexivity.
  - rewrite ends_with_quote_quoted. cbn [starts_with_quote andb].
    unfold char_eqb. rewrite N.eqb_refl. cbv iota.
    unfold slice_1_m1. cbn [tl]. rewrite removelast_last. reflexivity.
Qed.

Lemma separated_tokens_ok (ts : list (arg_token * jstring)) :
  separated ts = true -> Forall (fun x => token_ok (fst x) = true) ts.
Proof.
  induction ts as [|[t ws] r IH]; intros H; constructor.
  - simpl in H. repeat (apply andb_prop in H as [H ?]). exact H.
  - apply IH. simpl in H. apply andb_prop in H as [_ H]. exact H.
Qed.

Lemma split_args_bare (cur a r : jstring) :
  forallb is_bare a = true ->
  split_args cur false (a ++ r) = split_args (cur ++ a) false r.
Proof.
  revert cur. induction a as [|c a IH]; intros cur H.
  - rewrite app_nil_r. reflexivity.
  - simpl in H. apply andb_prop in H as [Hc Ha].
    unfold is_bare in Hc. apply andb_prop in Hc as [Hs Hq].
    apply negb_true_iff in Hs, Hq.
    rewrite <- app_comm_cons. cbn [split_args]. rewrite Hq, Hs.
    rewrite (IH (cur ++ [c]) Ha), <- app_assoc. reflexivity.
Qed.

Lemma split_args_span (cur body r : jstring) :
  forallb not_quote body = true ->
  split_args cur true (body ++ QUOTE :: r)
  = split_args (cur ++ body ++ [QUOTE]) false r.
Proof.
  revert cur. induction body as [|c body IH]; intros cur H.
  - reflexivity.
  - simpl in H. apply andb_prop in H as [Hc Hb]. unfold not_quote in Hc.
    rewrite <- app_comm_cons. cbn [split_args].
    rewrite Hc, (IH (cur ++ [c]) Hb), <- app_assoc. reflexivity.
Qed.

Lemma has_quote_app (body r : jstring) : has_quote (body ++ QUOTE :: r) = true.
Proof.
  unfold has_quote. rewrite existsb_app. simpl.
  apply orb_true_r.
Qed.

Lemma has_quote_none (body : jstring) :
  forallb not_quote body = true -> has_quote body = false.
Proof.
  induction body as [|c body IH]; [reflexivity|]. simpl. intros H.
  apply andb_prop in H as [Hc Hb]. unfold not_quote in Hc.
  apply negb_true_iff in Hc. rewrite Hc. apply IH, Hb.
Qed.

(** One round of the group, read by the splitter. *)
Lemma split_args_atom (cur s a r : jstring) :
  arg_atom s = Some (a, r) ->
  split_args cur false s = split_args (cur ++ a) false r
  /\ s = a ++ r /\ a <> [].
Proof.
  destruct s as [|c s']; [discriminate|]. unfold arg_atom.
  destruct (is_bare c) eqn:Hc.
  - intros H.
    assert (Hsp : span is_bare (c :: s') = (a, r)) by congruence.
    destruct (span_spec _ _ _ _ Hsp) as [Hs Ha]. rewrite Hs.
    split; [apply split_args_bare, Ha|]. split; [reflexivity|].
    simpl in Hsp. rewrite Hc in Hsp. destruct (span is_bare s').
    injection Hsp as <- _. discriminate.
  - destruct (char_eqb c QUOTE) eqn:Hq; [|discriminate].
    apply N.eqb_eq in Hq. subst c.
    destruct (span not_quote s') as [body r0] eqn:Hsp.
    destruct r0 as [|q r']; [discriminate|]. intros H. injection H as <- <-.
    destruct (span_spec _ _ _ _ Hsp) as [Hs Hb].
    pose proof (span_stops _ _ _ _ Hsp) as Hst. simpl in Hst.
    unfold not_quote in Hst. apply negb_false_iff in Hst.
    apply N.eqb_eq in Hst. subst q s'.
    split; [|split; [|discriminate]].
    + cbn [split_args]. change (char_eqb QUOTE QUOTE) with true.
      cbv iota. rewrite has_quote_app, (split_args_span _ body r' Hb).
      rewrite <- !app_assoc. reflexivity.
    + rewrite <- app_comm_cons, <- app_assoc. reflexivity.
Qed.

(** The repetition of the group, read by the splitter: the token that the
    expression matches is what the splitter has gathered when it reaches
    the text behind the match, and no further round starts there. *)
Lemma split_args_atoms (rounds : nat) (s cur t r : jstring) :
  (length s <= rounds)%nat -> arg_atoms rounds s = (t, r) ->
  split_args cur false s = split_args (cur ++ t) false r
  /\ s = t ++ r /\ arg_atom r = None.
Proof.
  revert s cur t r. induction rounds as [|n IH]; intros s cur t r Hl H.
  - destruct s; [|simpl in Hl; lia]. simpl in H. injection H as <- <-.
    rewrite app_nil_r. auto.
  - cbn [arg_atoms] in H. destruct (arg_atom s) as [[a r1]|] eqn:Ha.
    + destruct (arg_atoms n r1) as [t' r'] eqn:Ht. injection H as <- <-.
      destruct (split_args_atom cur s a r1 Ha) as (H1 & H2 & H3).
      assert (Hl' : (length r1 <= n)%nat).
      { subst s. rewrite length_app in Hl. destruct a; [congruence|].
        simpl in Hl. lia. }
      destruct (IH r1 (cur ++ a) t' r' Hl' Ht) as (H4 & H5 & H6).
      split; [|split; [|exact H6]].
      * rewrite H1, H4, <- app_assoc. reflexivity.
      * rewrite H2, H5, <- app_assoc. reflexivity.
    + injection H as <- <-. rewrite app_nil_r. auto.
Qed.

(** Where no round of the group starts, the splitter closes its token and
    drops the character: white space, or a double quote with no other one
    after it. *)
Lemma split_args_stop (cur r : jstring) :
  arg_atom r = None ->
  split_args cur false r
  = close_token cur ++ match r with
                       | [] => []
                       | _ :: r' => split_args [] false r'
                       end.
Proof.
  destruct r as [|c r']; intros H.
  - simpl. rewrite app_nil_r. reflexivity.
  - unfold arg_atom in H. cbn [split_args].
    destruct (is_bare c) eqn:Hc; [discriminate|].
    destruct (char_eqb c QUOTE) eqn:Hq.
    + destruct (span not_quote r') as [body r0] eqn:Hsp.
      destruct r0; [|discriminate].
      destruct (span_spec _ _ _ _ Hsp) as [Hs Hb].
      rewrite app_nil_r in Hs. subst body.
      rewrite (has_quote_none r' Hb). reflexivity.
    + unfold is_bare in Hc. rewrite Hq in Hc. simpl in Hc.
      rewrite andb_true_r in Hc. apply negb_false_iff in Hc.
      rewrite Hc. reflexivity.
Qed.

Lemma arg_parts_stop (c : char) (r : jstring) :
  arg_atom (c :: r) = None -> arg_parts (c :: r) = arg_parts r.
Proof.
  intros H. unfold arg_parts. rewrite match_all_from_cons.
  unfold argRegex. cbn [length arg_atoms]. rewrite H. reflexivity.
Qed.

(** The matches of the argument expression are the tokens of the
    splitter, on every text. *)
Lemma arg_parts_split (s : jstring) : arg_parts s = tokens_as_amended s.
Proof.
  unfold tokens_as_amended.
  remember (length s) as k eqn:Hk. revert s Hk.
  induction k as [k IH] using lt_wf_ind. intros s Hk.
  destruct s as [|c s']; [reflexivity|].
  destruct (arg_atoms (length (c :: s')) (c :: s')) as [t r] eqn:Ht.
  destruct (split_args_atoms _ (c :: s') [] t r (le_n _) Ht)
    as (H1 & H2 & H3).
  rewrite H1, (split_args_stop _ r H3). simpl app at 1.
  destruct t as [|d t].
  - simpl in H2. subst r. rewrite (arg_parts_stop c s' H3).
    simpl. apply (IH (length s')); [subst k; simpl; lia | reflexivity].
  - unfold arg_parts. rewrite match_all_from_cons.
    unfold argRegex. rewrite Ht. cbn [is_nil close_token].
    injection H2 as -> ->. simpl length.
    replace (S (length t) - 1)%nat with (length t) by lia.
    rewrite match_all_from_skip. simpl app. f_equal.
    destruct r as [|e r']; [reflexivity|].
    fold (arg_parts (e :: r')). rewrite (arg_parts_stop e r' H3).
    apply (IH (length r')); [|reflexivity].
    subst k. simpl. rewrite length_app. simpl. lia.
Qed.

(** C7 (amended). The argument text is read from the left: white space
    separates the tokens, except inside a double-quoted span that is
    closed, which stays whole in its token; a double quote with no double
    quote after it is dropped and separates tokens as white space does.  A
    token that begins and ends with a double quote becomes the string
    between the two and is not classified further; every other token
    becomes a boolean when it is [true] or [false], else a number when it
    looks numeric, else the value its text resolves to as a dotted path in
    the context.  A bare numeric-looking token is never looked up as a
    path. *)
Theorem C7_argument_parsing (data : JV NO) :
  (forall argsString,
     parseHelperArgs argsString data
     = List.map (argument_as_amended data) (tokens_as_amended argsString))
  /\ (forall lead ts,
        forallb is_space lead = true -> separated ts = true ->
        parseHelperArgs (lead ++ args_text ts) data
        = List.map (fun x => token_value data (fst x)) ts)
  /\ (forall word rest,
        forallb is_bare word = true -> has_quote rest = false ->
        parseHelperArgs (word ++ QUOTE :: rest) data
        = List.map (argument_as_amended data) (close_token word)
          ++ parseHelperArgs rest data)
  /\ (forall body,
        forallb not_quote body = true ->
        argument_as_amended data (QUOTE :: body ++ [QUOTE]) = JStr body)
  /\ (forall w n, string_to_number NO w = Some n ->
        token_value data (Bare w) = JBool true
        \/ token_value data (Bare w) = JBool false
        \/ token_value data (Bare w) = JNum n).
Proof.
  split; [|split; [|split; [|split]]].
  - intros argsString. unfold parseHelperArgs.
    rewrite arg_parts_split. reflexivity.
  - intros lead ts Hl Hs. unfold parseHelperArgs.
    rewrite (arg_parts_space lead _ Hl), (arg_parts_tokens ts Hs).
    rewrite List.map_map. apply List.map_ext_in. intros [t ws] Hin.
    apply parse_part_token. simpl.
    pose proof (separated_tokens_ok ts Hs) as Hok.
    rewrite List.Forall_forall in Hok. apply (Hok (t, ws)), Hin.
  - intros word rest Hw Hr. unfold parseHelperArgs.
    rewrite !arg_parts_split. unfold tokens_as_amended.
    rewrite (split_args_bare [] word _ Hw). cbn [split_args app].
    change (char_eqb QUOTE QUOTE) with true. cbv iota. rewrite Hr.
    rewrite List.map_app. reflexivity.
  - intros body Hb.
    exact (parse_part_token data (Quoted body) Hb).
  - intros w n Hn. simpl. rewrite Hn.
    destruct (jstring_eqb w (js "true")); [auto|].
    destruct (jstring_eqb w (js "false")); auto.
Qed.


(** ** The recursion depth

    A run that does not run out of depth returns the same at every greater
    depth: the results below the depth a template needs are [OutOfFuel],
    and from that depth on they are one value, what the source returns. *)
Section Depth.

Lemma refines_refl {A} (r : Res A) : refines r r.
Proof. right. reflexivity. Qed.

Lemma refines_bind {A B} (r r' : Res A) (k k' : A -> Res B) :
  refines r r' -> (forall a, refines (k a) (k' a)) ->
  refines (bindR r k) (bindR r' k').
Proof.
  intros [->| ->] Hk; [left; reflexivity|].
  destruct r'; simpl; [apply Hk | right; reflexivity | left; reflexivity].
Qed.

Lemma replace_from_refines {C} (regex : jstring -> option (C * jstring))
    (cb cb' : C -> jstring -> Res jstring) (skip : nat) (s : jstring) :
  (forall c m, refines (cb c m) (cb' c m)) ->
  refines (replace_from regex cb skip s) (replace_from regex cb' skip s).
Proof.
  intros H. revert skip. induction s as [|c s IH]; intros skip.
  - apply refines_refl.
  - rewrite !replace_from_cons. destruct skip; [|apply IH].
    destruct (regex (c :: s)) as [[caps rest]|]; cbv zeta.
    + apply refines_bind; [apply H|]. intros r.
      apply refines_bind; [apply IH|]. intros out. apply refines_refl.
    + apply refines_bind; [apply IH|]. intros out. apply refines_refl.
Qed.

Lemma map_join_refines (f f' : nat -> JV NO -> Res jstring) (index : nat)
    (items : list (JV NO)) :
  (forall i item, refines (f i item) (f' i item)) ->
  refines (map_join f index items) (map_join f' index items).
Proof.
  intros H. revert index. induction items as [|item items IH]; intros index.
  - apply refines_refl.
  - simpl. apply refines_bind; [apply H|]. intros r.
    apply refines_bind; [apply IH|]. intros out. apply refines_refl.
Qed.

Lemma passes_refines (E : Engine) (rec rec' : jstring -> JV NO -> Res jstring)
    (template : jstring) (data : JV NO) :
  (forall t d, refines (rec t d) (rec' t d)) ->
  refines (passes E rec template data) (passes E rec' template data).
Proof.
  intros H. unfold passes. apply refines_bind.
  - apply replace_from_refines. intros [path content] m.
    unfold loop_callback. destruct (getValueByPath data path);
      try apply refines_refl.
    apply map_join_refines. intros i item. unfold loop_item.
    apply refines_bind; [apply refines_refl|]. intros c1. apply H.
  - intros r1. apply refines_bind.
    + unfold processConditionals. apply refines_bind.
      * apply replace_from_refines. intros [[path tc] fc] m.
        unfold ifElse_callback.
        destruct (truthy (getValueByPath data path)); apply H.
      * intros t1. apply replace_from_refines. intros [path content] m.
        unfold if_callback.
        destruct (truthy (getValueByPath data path));
          [apply H | apply refines_refl].
    + intros r2. apply refines_refl.
Qed.

Lemma processTemplate_deeper (E : Engine) (n : nat) (template : jstring)
    (data : JV NO) :
  refines (processTemplate E n template data)
          (processTemplate E (S n) template data).
Proof.
  revert template data. induction n as [|n IH]; intros template data.
  - left. reflexivity.
  - change (refines (passes E (processTemplate E n) template data)
                    (passes E (processTemplate E (S n)) template data)).
    apply passes_refines, IH.
Qed.

Lemma processTemplate_stable (E : Engine) (n m : nat) (template : jstring)
    (data : JV NO) :
  (n <= m)%nat -> processTemplate E n template data <> OutOfFuel ->
  processTemplate E m template data = processTemplate E n template data.
Proof.
  intros Hle Hn. induction Hle as [|m Hle IH]; [reflexivity|].
  destruct (processTemplate_deeper E m template data) as [Hm|Hm].
  - rewrite IH in Hm. contradiction.
  - rewrite <- Hm. exact IH.
Qed.

End Depth.

End Claims.

(** * Concrete runs

    The properties above at explicit inputs, with integer numbers and an
    evaluator whose registries are empty. *)

Ltac run := vm_compute; first [reflexivity | discriminate | congruence].
Ltac nonempty := let H := fresh in intro H; vm_compute in H; discriminate.
Ltac side := first [nonempty | run].

(** The scenarios of the specification that call no helper. *)
Example scenario_variable :
  render empty_engine 1 (js "Hello {{name}}!") (obj [field "name" (str "Ada")])
  = Ok (js "Hello Ada!").
Proof. run. Qed.

Example scenario_each :
  render empty_engine 2 (js "{{#each items}}{{this}},{{/each}}")
    (obj [field "items" (JArr [int 1; int 2; int 3])])
  = Ok (js "1,2,3,").
Proof. run. Qed.

Example scenario_if_else :
  render empty_engine 2 (js "{{#if active}}Yes{{else}}No{{/if}}")
    (obj [field "active" (JBool false)])
  = Ok (js "No").
Proof. run. Qed.

(** C1. The template [{{#each items}}{{this.name}}{{/each}}] on the context
    [{items: [null]}]: the property reference to the current item reads
    [item[prop]] on [null], and rendering throws instead of yielding the
    empty string. *)
Theorem C1_null_item_property_throws (fuel : nat) :
  render empty_engine (S fuel)
    (js "{{#each items}}{{this.name}}{{/each}}")
    (obj [field "items" (JArr [JNull])])
  = Throw.
Proof. vm_compute. reflexivity. Qed.


Example conditional_single_block_run :
  replaceIfElse (processTemplate empty_engine 1)
    (js "{{#if active}}Yes{{else}}No{{/if}}")
    (obj [field "active" (JBool false)])
  = Ok (js "No").
Proof.
  destruct (conditional_single_block empty_engine 1
              (obj [field "active" (JBool false)])
              (js " ") (js "active") (js "Yes") (js "Yes") (js "No")
              ltac:(side) ltac:(side) ltac:(side) ltac:(side) ltac:(side)
              ltac:(side) ltac:(side))
    as (_ & H & _).
  etransitivity; [exact H | run].
Defined.

(** C3. The template [{{#if a}}A{{/if}} {{#if b}}B{{else}}C{{/if}}] on the
    context [{a: false, b: true}]: an if-only block on a falsy path
    followed by an if/else block on a truthy path.  Each block alone
    renders as the claim says, the first as the empty string and the
    second as its then-branch [B], so the template should render as a
    space and [B].  The if/else expression, which runs first, matches from
    the opening marker of the first block to the [{{else}}] of the second:
    it takes [A{{/if}} {{#if b}}B] for a then-branch keyed by [a], and the
    template renders as the else-branch [C] of the second block. *)
Theorem C3_sequential_blocks_mispaired (fuel : nat) :
  let data := obj [field "a" (JBool false); field "b" (JBool true)] in
  render empty_engine (S (S fuel)) (js "{{#if a}}A{{/if}}") data = Ok []
  /\ render empty_engine (S (S fuel)) (js "{{#if b}}B{{else}}C{{/if}}") data
     = Ok (js "B")
  /\ ifElseRegex (js "{{#if a}}A{{/if}} {{#if b}}B{{else}}C{{/if}}")
     = Some ((js "a", js "A{{/if}} {{#if b}}B", js "C"), [])
  /\ render empty_engine (S (S fuel))
       (js "{{#if a}}A{{/if}} {{#if b}}B{{else}}C{{/if}}") data
     = Ok (js "C")
  /\ render empty_engine (S (S fuel))
       (js "{{#if a}}A{{/if}} {{#if b}}B{{else}}C{{/if}}") data
     <> Ok (js " B").
Proof. repeat split; vm_compute; congruence. Qed.

Lemma C4_variable_substitution_witness :
  processVariables (js "Hello {{name}}!") (obj [field "name" (str "Ada")])
  = js "Hello Ada!".
Proof.
  etransitivity;
    [ exact (C4_variable_substitution (obj [field "name" (str "Ada")])
               (js "Hello ") (js "name") (js "!") eq_refl eq_refl)
    | run ].
Defined.

Lemma C5_compile_is_render_witness :
  compile (js "Hello {{name}}!") empty_engine 1 (obj [field "name" (str "Ada")])
  = render empty_engine 1 (js "Hello {{name}}!") (obj [field "name" (str "Ada")]).
Proof. apply C5_compile_is_render. run. Defined.

Lemma C6_unknown_helper_unmodified_witness :
  processHelpers empty_engine (js "{{unknownHelper a b}}") (obj [])
  = Ok (js "{{unknownHelper a b}}").
Proof.
  etransitivity;
    [ exact (C6_unknown_helper_unmodified empty_engine (obj []) []
               (js "unknownHelper") (js " ") (js "a b") []
               ltac:(side) ltac:(side) ltac:(side) ltac:(side) ltac:(side)
               ltac:(side) ltac:(side) ltac:(side))
    | run ].
Defined.

Lemma C7_argument_parsing_witness :
  parseHelperArgs (js "skills " ++ QUOTE :: js " | " ++ [QUOTE])
    (obj [field "skills" (JArr [str "Go"; str "Rust"])])
  = [JArr [str "Go"; str "Rust"]; str " | "]
  /\ parseHelperArgs (js "ab" ++ QUOTE :: js "cd ef") (obj [])
     = [JUndef; JUndef; JUndef].
Proof.
  split.
  - etransitivity;
      [ exact (proj1 (proj2 (C7_argument_parsing
                 (obj [field "skills" (JArr [str "Go"; str "Rust"])])))
               [] [(Bare (js "skills"), js " "); (Quoted (js " | "), [])]
               ltac:(side) ltac:(side))
      | run ].
  - etransitivity;
      [ exact (proj1 (C7_argument_parsing (obj []))
                 (js "ab" ++ QUOTE :: js "cd ef"))
      | run ].
Defined.

Lemma C7_counterexample :
  parseHelperArgs (QUOTE :: js "Ada" ++ [QUOTE]) (obj [])
  = [str "Ada"]
  /\ parseHelperArgs_as_claimed (QUOTE :: js "Ada" ++ [QUOTE]) (obj [])
     = [JUndef]
  /\ parseHelperArgs (QUOTE :: js "Ada" ++ [QUOTE]) (obj [])
     <> parseHelperArgs_as_claimed (QUOTE :: js "Ada" ++ [QUOTE]) (obj []).
Proof. repeat split; run. Qed.

Lemma C10_falsy_markup_falls_back_witness :
  render
    (registerTemplate (js "cv") (obj [field "html" (JStr []); field "styles" (JStr [])])
       empty_engine)
    1 (js "cv") (obj [])
  <> Ok [].
Proof.
  destruct (C10_falsy_markup_falls_back
              (registerTemplate (js "cv")
                 (obj [field "html" (JStr []); field "styles" (JStr [])]) empty_engine)
              (js "cv") [field "html" (JStr []); field "styles" (JStr [])]
              (obj []) 1 ltac:(run)) as [_ H].
  exact (proj2 (H ltac:(run))).
Defined.

(** * The store under render *)

Section StoreFacts.

Context {NO : NumberOps}.
Variable ToString_h : list (@Store.cell NO) -> @Store.val NO -> list N.
Variable JSON_stringify_h :
  list (@Store.cell NO) -> @Store.val NO -> Res (list N).

Import Store.

Local Abbreviation cell := (@Store.cell NO).
Local Abbreviation val := (@Store.val NO).
Local Abbreviation St := (@Store.St NO).

Lemma preserves_ret {A} (a : A) : preserves (@ret NO A a).
Proof. intros h. exists []. simpl. rewrite app_nil_r. reflexivity. Qed.

Lemma preserves_read {A} (f : list cell -> Res A) : preserves (read f).
Proof. intros h. exists []. simpl. rewrite app_nil_r. reflexivity. Qed.

Lemma preserves_fail {A} (r : Res A) :
  preserves (fun h : list cell => (r, h)).
Proof. intros h. exists []. simpl. rewrite app_nil_r. reflexivity. Qed.

Lemma preserves_alloc (c : cell) : preserves (alloc c).
Proof. intros h. exists [c]. reflexivity. Qed.

Lemma preserves_bind {A B} (m : St A) (k : A -> St B) :
  preserves m -> (forall a, preserves (k a)) -> preserves (bind m k).
Proof.
  intros Hm Hk h. unfold bind. destruct (Hm h) as [x Hx].
  destruct (m h) as [[a| |] h']; simpl in Hx; subst h'.
  - destruct (Hk a (h ++ x)) as [y Hy]. exists (x ++ y).
    rewrite Hy, app_assoc. reflexivity.
  - exists x. reflexivity.
  - exists x. reflexivity.
Qed.

Lemma preserves_itemData (data item : val) (index len : nat) :
  preserves (itemData data item index len).
Proof. intros h. eexists. reflexivity. Qed.

Lemma preserves_replace_from {C} (regex : list N -> option (C * list N))
    (cb : C -> list N -> St (list N)) (skip : nat) (s : list N) :
  (forall caps m, preserves (cb caps m)) ->
  preserves (replace_from_st regex cb skip s).
Proof.
  intros Hcb. revert skip. induction s as [|c s IH]; intros skip.
  - apply preserves_ret.
  - simpl. destruct skip; [|apply IH].
    destruct (regex (c :: s)) as [[caps rest]|].
    + apply preserves_bind; [apply Hcb|]. intros r.
      apply preserves_bind; [apply IH|]. intros out. apply preserves_ret.
    + apply preserves_bind; [apply IH|]. intros out. apply preserves_ret.
Qed.

Lemma preserves_map_join (f : nat -> val -> St (list N)) (index : nat)
    (items : list val) :
  (forall i item, preserves (f i item)) -> preserves (map_join f index items).
Proof.
  intros Hf. revert index. induction items as [|item items IH]; intros index.
  - apply preserves_ret.
  - simpl. apply preserves_bind; [apply Hf|]. intros r.
    apply preserves_bind; [apply IH|]. intros out. apply preserves_ret.
Qed.

Section PassFacts.

Variable E : @Engine NO.
Variable rec : list N -> val -> St (list N).
Hypothesis rec_preserves : forall t d, preserves (rec t d).

Lemma preserves_loop_item data content len index item :
  preserves (loop_item ToString_h JSON_stringify_h rec data content len index item).
Proof.
  unfold loop_item. apply preserves_bind; [apply preserves_itemData|].
  intros scope. apply preserves_bind; [apply preserves_read|]. intros c1.
  apply preserves_bind; [apply preserves_read|]. intros c2.
  apply rec_preserves.
Qed.

Lemma preserves_processLoops template data :
  preserves (processLoops ToString_h JSON_stringify_h rec template data).
Proof.
  apply preserves_replace_from. intros [path content] m h.
  unfold loop_callback.
  destruct (getValueByPath h data path); try apply (preserves_ret [] h).
  destruct (nth_error h address) as [[ps|items]|];
    try apply (preserves_ret [] h).
  apply preserves_map_join. intros i item. apply preserves_loop_item.
Qed.

Lemma preserves_processConditionals template data :
  preserves (processConditionals rec template data).
Proof.
  apply preserves_bind.
  - apply preserves_replace_from. intros [[path tc] fc] m h.
    unfold ifElse_callback.
    destruct (truthy (getValueByPath h data path)); apply rec_preserves.
  - intros t1. apply preserves_replace_from. intros [path content] m h.
    unfold if_callback.
    destruct (truthy (getValueByPath h data path));
      [apply rec_preserves | apply (preserves_ret [] h)].
Qed.

Lemma preserves_passes template data :
  preserves (passes ToString_h JSON_stringify_h E rec template data).
Proof.
  unfold passes. apply preserves_bind; [apply preserves_processLoops|].
  intros r1. apply preserves_bind; [apply preserves_processConditionals|].
  intros r2. apply preserves_bind.
  - apply preserves_replace_from. intros path m. apply preserves_read.
  - intros r3. apply preserves_replace_from. intros caps m.
    apply preserves_read.
Qed.

End PassFacts.

Lemma preserves_processTemplate E fuel template data :
  preserves (processTemplate ToString_h JSON_stringify_h E fuel template data).
Proof.
  revert template data. induction fuel as [|n IH]; intros template data.
  - apply preserves_fail.
  - simpl. apply preserves_passes. exact IH.
Qed.

Lemma preserves_render E fuel templateName data :
  preserves (render ToString_h JSON_stringify_h E fuel templateName data).
Proof.
  intros h. unfold render. cbv zeta.
  match goal with
  | |- context [match ?v with VStr _ => _ | _ => _ end] => destruct v
  end; try apply (preserves_fail Throw h).
  apply preserves_processTemplate.
Qed.

(** C9. [render] leaves the context unchanged: every cell that is in the
    store when [render] is called, those of the context among them, holds
    the same after the call, whatever the call returns.  The scope of a
    loop iteration is a new cell at an address that was free; it binds
    [this] to the item, [@index] to the index, [@first] to [index = 0] and
    [@last] to [index = length - 1], and under every other name it has what
    the enclosing context has (the same values, shared and not copied in
    depth).  The iteration hands the address of that cell to the inner
    pipeline and returns text only: nothing refers to the scope once the
    iteration is over. *)
Theorem C9_render_leaves_context_unchanged (E : @Engine NO) (fuel : nat)
    (templateName : list N) (data : val) (h : list cell) (a : nat)
    (c : cell) :
  nth_error h a = Some c ->
  nth_error
    (snd (render ToString_h JSON_stringify_h E fuel templateName data h)) a
  = Some c
  /\ (forall item i len,
        itemData data item i len h
        = (Ok (VRef (length h)),
           h ++ [CObj (scope_props h data item i len)])
        /\ nth_error h (length h) = None
        /\ assoc (js "this") (scope_props h data item i len) = Some item
        /\ assoc (js "@index") (scope_props h data item i len)
           = Some (VNum (num_of_nat NO i))
        /\ assoc (js "@first") (scope_props h data item i len)
           = Some (VBool (Nat.eqb i 0))
        /\ assoc (js "@last") (scope_props h data item i len)
           = Some (VBool (Nat.eqb i (len - 1)))
        /\ (forall k, k <> js "this" -> k <> js "@index" ->
              k <> js "@first" -> k <> js "@last" ->
              assoc k (scope_props h data item i len)
              = assoc k (own_props h data))
        /\ forall (rec : list N -> val -> St (list N)) (content : list N),
             loop_item ToString_h JSON_stringify_h rec data content len i
               item h
             = bind
                 (read (fun h' => replace_this_props ToString_h h' item
                                    content))
                 (fun c1 =>
                    bind
                      (read (fun h' => replace_this ToString_h
                                         JSON_stringify_h h' item c1))
                      (fun c2 => rec c2 (VRef (length h))))
                 (h ++ [CObj (scope_props h data item i len)])).
Proof.
  intros Ha. split.
  - destruct (preserves_render E fuel templateName data h) as [added ->].
    rewrite nth_error_app1; [exact Ha|]. apply nth_error_Some. congruence.
  - intros item i len. split; [reflexivity|]. split.
    { apply nth_error_None. lia. }
    unfold scope_props.
    repeat split;
      try (repeat first
             [ rewrite assoc_obj_set_eq
             | rewrite assoc_obj_set_neq by (vm_compute; congruence) ];
           reflexivity).
    intros k H1 H2 H3 H4.
    rewrite !assoc_obj_set_neq by assumption. reflexivity.
Qed.

End StoreFacts.

Lemma C9_render_leaves_context_unchanged_witness :
  nth_error
    (snd (Store.render Store.ToString Store.JSON_stringify
            empty_store_engine 2 (js "{{#each items}}{{this}},{{/each}}")
            (Store.VRef 0) store0)) 0
  = Some (Store.CObj [(js "items", Store.VRef 1)])
  /\ nth_error
       (snd (Store.render Store.ToString Store.JSON_stringify
               empty_store_engine 2 (js "{{#each items}}{{this}},{{/each}}")
               (Store.VRef 0) store0)) 3
     = Some (Store.CObj
               [(js "items", Store.VRef 1);
                (js "this", Store.VStr (js "b"));
                (js "@index", Store.VNum (1%Z : num IntNumbers.ops));
                (js "@first", Store.VBool false);
                (js "@last", Store.VBool true)]).
Proof.
  split.
  - exact (proj1 (C9_render_leaves_context_unchanged
                    Store.ToString Store.JSON_stringify empty_store_engine 2
                    (js "{{#each items}}{{this}},{{/each}}") (Store.VRef 0)
                    store0 0 (Store.CObj [(js "items", Store.VRef 1)])
                    eq_refl)).
  - vm_compute. reflexivity.
Defined.

(** * More properties of the evaluator *)

Section PathFacts.

Context {NO : NumberOps}.

Lemma split_on_nonempty (sep : char) (s : jstring) : split_on sep s <> [].
Proof.
  destruct s as [|c s]; simpl; [discriminate|].
  destruct (char_eqb c sep); [discriminate|].
  destruct (split_on sep s); discriminate.
Qed.

Lemma split_on_app (sep : char) (p q : jstring) :
  split_on sep (p ++ sep :: q) = split_on sep p ++ split_on sep q.
Proof.
  induction p as [|c p IH]; simpl.
  - unfold char_eqb. rewrite N.eqb_refl. reflexivity.
  - destruct (char_eqb c sep); [rewrite IH; reflexivity|].
    rewrite IH. pose proof (split_on_nonempty sep p) as Hne.
    destruct (split_on sep p); [congruence|reflexivity].
Qed.

Lemma path_steps_undefined (keys : list jstring) :
  fold_left (@path_step NO) keys JUndef = JUndef.
Proof. induction keys as [|k keys IH]; [reflexivity|exact IH]. Qed.

Lemma path_compose (obj : JV NO) (p q : jstring) :
  getValueByPath obj (p ++ DOT :: q)
  = getValueByPath (getValueByPath obj p) q.
Proof.
  unfold getValueByPath. rewrite split_on_app, fold_left_app. reflexivity.
Qed.

(** X1. Path resolution composes at every dot: resolving [p.q] is
    resolving [q] in what [p] resolves to, and resolving a path without a
    dot in a mapping that has an own property of that name yields the value
    of that property. *)
Theorem getValueByPath_compose (obj : JV NO) (p q : jstring) :
  getValueByPath obj (p ++ DOT :: q)
  = getValueByPath (getValueByPath obj p) q
  /\ forall (props : list (jstring * JV NO)) (v : JV NO),
       forallb (fun c => negb (char_eqb c DOT)) q = true ->
       assoc q props = Some v ->
       getValueByPath (JObj props) q = v.
Proof.
  split; [apply path_compose|]. intros props v Hq Hv.
  assert (Hs : split_on DOT q = [q]).
  { clear -Hq. induction q as [|c q IH]; [reflexivity|]. simpl in Hq.
    apply andb_prop in Hq as [Hc Hq]. apply negb_true_iff in Hc.
    simpl. rewrite Hc, (IH Hq). reflexivity. }
  unfold getValueByPath. rewrite Hs. cbn [fold_left].
  unfold path_step, prop_of. cbn [truthy]. rewrite Hv. reflexivity.
Qed.

(** X2. A falsy value on the way ends the resolution: when [p] resolves to
    [false], [0], the empty string, [null] or [undefined], every longer
    path [p.q] resolves to [undefined], also where the value has the
    property (the [length] of an empty string). *)
Theorem getValueByPath_falsy_stops (obj : JV NO) (p q : jstring) :
  truthy (getValueByPath obj p) = false ->
  getValueByPath obj (p ++ DOT :: q) = JUndef.
Proof.
  intros H. rewrite path_compose. unfold getValueByPath.
  pose proof (split_on_nonempty DOT q) as Hne.
  destruct (split_on DOT q) as [|k keys]; [congruence|].
  cbn [fold_left]. unfold path_step at 2.
  fold (getValueByPath obj p). rewrite H. apply path_steps_undefined.
Qed.

End PathFacts.

Section InertText.

Context {NO : NumberOps}.

Lemma brace_inert_suffix (a b : jstring) :
  brace_inert (a ++ b) = true -> brace_inert b = true.
Proof.
  induction a as [|c a IH]; [tauto|]. rewrite <- app_comm_cons.
  cbn [brace_inert]. intros H. apply andb_prop in H as [_ H]. auto.
Qed.

Lemma inert_nowhere {C} (regex : jstring -> option (C * jstring))
    (t : jstring) :
  (forall s, opens_construct s = false -> regex s = None) ->
  brace_inert t = true ->
  forall a b, t = a ++ b -> regex b = None.
Proof.
  intros Hre Ht a b ->. apply brace_inert_suffix in Ht. apply Hre.
  destruct b as [|c b]; [reflexivity|]. cbn [brace_inert] in Ht.
  apply andb_prop in Ht as [Ht _]. apply negb_true_iff in Ht. exact Ht.
Qed.

Lemma opens_of_prefix (kw s r : jstring) :
  opens_construct (kw ++ []) = true -> strip_prefix kw s = Some r ->
  opens_construct s = true.
Proof.
  intros Hk Hs. apply strip_prefix_Some in Hs. subst s.
  rewrite app_nil_r in Hk.
  destruct kw as [|c1 [|c2 [|c3 kw]]]; try discriminate. exact Hk.
Qed.

Lemma match_open_opens (kw s : jstring) :
  opens_construct (kw ++ []) = true -> opens_construct s = false ->
  match_open kw s = None.
Proof.
  intros Hk Hs. unfold match_open.
  destruct (strip_prefix kw s) as [r|] eqn:E; [|reflexivity].
  rewrite (opens_of_prefix kw s r Hk E) in Hs. discriminate.
Qed.

Lemma loopRegex_opens (s : jstring) :
  opens_construct s = false -> loopRegex s = None.
Proof.
  intros H. unfold loopRegex. rewrite match_open_opens; auto.
Qed.

Lemma ifElseRegex_opens (s : jstring) :
  opens_construct s = false -> ifElseRegex s = None.
Proof.
  intros H. unfold ifElseRegex. rewrite match_open_opens; auto.
Qed.

Lemma ifRegex_opens (s : jstring) :
  opens_construct s = false -> ifRegex s = None.
Proof.
  intros H. unfold ifRegex. rewrite match_open_opens; auto.
Qed.

Lemma opens_word (c : char) (r : jstring) :
  is_word c = true -> opens_construct (js "{{" ++ c :: r) = true.
Proof. intros H. simpl. rewrite H. reflexivity. Qed.

Lemma varRegex_opens (s : jstring) :
  opens_construct s = false -> varRegex s = None.
Proof.
  intros H. unfold varRegex.
  destruct (strip_prefix (js "{{") s) as [r0|] eqn:E; [|reflexivity].
  apply strip_prefix_Some in E. subst s. unfold match_path.
  destruct r0 as [|c r0]; [reflexivity|].
  destruct (is_word c) eqn:Hc; [|reflexivity].
  rewrite (opens_word c r0 Hc) in H. discriminate.
Qed.

Lemma helperRegex_opens (s : jstring) :
  opens_construct s = false -> helperRegex s = None.
Proof.
  intros H. unfold helperRegex.
  destruct (strip_prefix (js "{{") s) as [r0|] eqn:E; [|reflexivity].
  apply strip_prefix_Some in E. subst s.
  destruct r0 as [|c r0]; [reflexivity|]. cbn [span].
  destruct (is_word c) eqn:Hc; [|reflexivity].
  rewrite (opens_word c r0 Hc) in H. discriminate.
Qed.

Lemma replace_pure_nowhere {C} (regex : jstring -> option (C * jstring))
    (cb : C -> jstring -> jstring) (s : jstring) :
  (forall a b, s = a ++ b -> regex b = None) -> replace_pure regex cb s = s.
Proof.
  intros H. pose proof (replace_from_pure regex cb 0 s) as Hp.
  fold (replace_all regex (fun caps m => Ok (cb caps m)) s) in Hp.
  rewrite (replace_all_untouched regex _ s H) in Hp.
  injection Hp as Hp. symmetry. exact Hp.
Qed.

(** X3. Text in which no position opens a construct (two opening braces
    followed by a word character or [#]) is a fixed point of the pipeline:
    text without braces, but also [{{@index}}], [{{/each}}] on its own and
    a reference written with a space after the braces, come back as they
    are, for every context and registry. *)
Theorem processTemplate_inert (E : Engine) (n : nat) (t : jstring)
    (data : JV NO) :
  brace_inert t = true -> processTemplate E (S n) t data = Ok t.
Proof.
  intros H. cbn [processTemplate]. unfold passes, processLoops.
  rewrite (replace_all_untouched loopRegex _ t
             (inert_nowhere loopRegex t loopRegex_opens H)).
  cbn [bindR]. unfold processConditionals, replaceIfElse, replaceIf.
  rewrite (replace_all_untouched ifElseRegex _ t
             (inert_nowhere ifElseRegex t ifElseRegex_opens H)).
  cbn [bindR].
  rewrite (replace_all_untouched ifRegex _ t
             (inert_nowhere ifRegex t ifRegex_opens H)).
  cbn [bindR]. unfold processVariables.
  rewrite (replace_pure_nowhere varRegex _ t
             (inert_nowhere varRegex t varRegex_opens H)).
  unfold processHelpers.
  apply (replace_all_untouched helperRegex _ t
           (inert_nowhere helperRegex t helperRegex_opens H)).
Qed.

End InertText.

Section UnterminatedBlocks.

Context {NO : NumberOps}.
Variable rec : jstring -> JV NO -> Res jstring.

Lemma loopRegex_nowhere (t : jstring) :
  find_sub (js "{{/each}}") t = None ->
  forall a b, t = a ++ b -> loopRegex b = None.
Proof.
  intros Hn a b ->. unfold loopRegex.
  destruct (match_open (js "{{#each") b) as [[q r]|] eqn:Ho; [|reflexivity].
  apply match_open_suffix in Ho as [a' ->].
  rewrite app_assoc in Hn. apply find_sub_None_suffix in Hn.
  rewrite Hn. reflexivity.
Qed.

Lemma ifRegex_nowhere (t : jstring) :
  find_sub (js "{{/if}}") t = None ->
  forall a b, t = a ++ b -> ifRegex b = None.
Proof.
  intros Hn a b ->. unfold ifRegex.
  destruct (match_open (js "{{#if") b) as [[q r]|] eqn:Ho; [|reflexivity].
  apply match_open_suffix in Ho as [a' ->].
  rewrite app_assoc in Hn. apply find_sub_None_suffix in Hn.
  rewrite Hn. reflexivity.
Qed.

Lemma ifElseRegex_unclosed (t : jstring) :
  find_sub (js "{{/if}}") t = None ->
  forall a b, t = a ++ b -> ifElseRegex b = None.
Proof.
  intros Hn a b ->. unfold ifElseRegex.
  destruct (match_open (js "{{#if") b) as [[q r]|] eqn:Ho; [|reflexivity].
  apply match_open_suffix in Ho as [a' ->].
  destruct (find_sub (js "{{else}}") r) as [[tc r']|] eqn:He; [|reflexivity].
  apply find_sub_Some in He. subst r.
  replace (a ++ a' ++ tc ++ js "{{else}}" ++ r')
    with ((a ++ a' ++ tc ++ js "{{else}}") ++ r') in Hn
    by (rewrite <- !app_assoc; reflexivity).
  apply find_sub_None_suffix in Hn. rewrite Hn. reflexivity.
Qed.

(** X4. A loop marker that is never closed is not detected: when the
    template holds no [{{/each}}], the loop pass returns it as it is,
    opening markers included, and reads nothing from the context. *)
Theorem processLoops_unterminated (t : jstring) (data : JV NO) :
  find_sub (js "{{/each}}") t = None -> processLoops rec t data = Ok t.
Proof.
  intros H. apply replace_all_untouched, loopRegex_nowhere, H.
Qed.

(** X5. A conditional marker that is never closed is not detected either:
    when the template holds no [{{/if}}], the conditional pass returns it
    as it is, in both of its forms. *)
Theorem processConditionals_unterminated (t : jstring) (data : JV NO) :
  find_sub (js "{{/if}}") t = None -> processConditionals rec t data = Ok t.
Proof.
  intros H. unfold processConditionals, replaceIfElse, replaceIf.
  rewrite (replace_all_untouched ifElseRegex _ t (ifElseRegex_unclosed t H)).
  cbn [bindR]. apply replace_all_untouched, ifRegex_nowhere, H.
Qed.

End UnterminatedBlocks.

Section BlockBodies.

Lemma strip_prefix_app_None (p x y : jstring) :
  strip_prefix p (x ++ y) = None -> strip_prefix p x = None.
Proof.
  revert x. induction p as [|c p IH]; intros x H; [discriminate|].
  destruct x as [|d x]; [reflexivity|]. simpl in *.
  destruct (char_eqb c d); [auto|reflexivity].
Qed.

(** [find_sub] returns the first occurrence: none lies in the text before
    it. *)
Lemma find_sub_first (p s a b : jstring) :
  p <> [] -> find_sub p s = Some (a, b) -> find_sub p a = None.
Proof.
  intros Hp. revert a b. induction s as [|c s IH]; intros a b H.
  - simpl in H. destruct (strip_prefix p []) eqn:E; [|discriminate].
    injection H as <- <-. destruct p; [congruence|reflexivity].
  - simpl in H. destruct (strip_prefix p (c :: s)) eqn:E.
    + injection H as <- <-. destruct p; [congruence|reflexivity].
    + destruct (find_sub p s) as [[a' b']|] eqn:Hs; [|discriminate].
      injection H as <- <-. pose proof (find_sub_Some _ _ _ _ Hs) as ->.
      simpl. rewrite app_comm_cons in E.
      rewrite (strip_prefix_app_None p (c :: a') _ E).
      rewrite (IH a' b' eq_refl). reflexivity.
Qed.

(** X6. The body of a matched block never holds the marker that closes
    it: a loop body holds no [{{/each}}], the body of an if-only block no
    [{{/if}}], the then-branch of an if/else block no [{{else}}] and its
    else-branch no [{{/if}}].  A block written inside a block of its own
    kind therefore ends the outer block at the inner closing marker. *)
Theorem block_bodies_hold_no_closing_marker (s : jstring) :
  (forall p content rest,
     loopRegex s = Some ((p, content), rest) ->
     find_sub (js "{{/each}}") content = None)
  /\ (forall p content rest,
        ifRegex s = Some ((p, content), rest) ->
        find_sub (js "{{/if}}") content = None)
  /\ (forall p tc fc rest,
        ifElseRegex s = Some ((p, tc, fc), rest) ->
        find_sub (js "{{else}}") tc = None
        /\ find_sub (js "{{/if}}") fc = None).
Proof.
  repeat split; intros.
  - unfold loopRegex in H.
    destruct (match_open (js "{{#each") s) as [[q r]|]; [|discriminate].
    destruct (find_sub (js "{{/each}}") r) as [[c r']|] eqn:E;
      [|discriminate].
    injection H as _ <- _. refine (find_sub_first _ _ _ _ _ E).
    intro Hx. vm_compute in Hx. discriminate.
  - unfold ifRegex in H.
    destruct (match_open (js "{{#if") s) as [[q r]|]; [|discriminate].
    destruct (find_sub (js "{{/if}}") r) as [[c r']|] eqn:E; [|discriminate].
    injection H as _ <- _. refine (find_sub_first _ _ _ _ _ E).
    intro Hx. vm_compute in Hx. discriminate.
  - unfold ifElseRegex in H.
    destruct (match_open (js "{{#if") s) as [[q r]|]; [|discriminate].
    destruct (find_sub (js "{{else}}") r) as [[c r']|] eqn:E; [|discriminate].
    destruct (find_sub (js "{{/if}}") r') as [[c' r'']|]; [|discriminate].
    injection H as _ <- _ _.
    refine (find_sub_first _ _ _ _ _ E).
    intro Hx. vm_compute in Hx. discriminate.
  - unfold ifElseRegex in H.
    destruct (match_open (js "{{#if") s) as [[q r]|]; [|discriminate].
    destruct (find_sub (js "{{else}}") r) as [[c r']|]; [|discriminate].
    destruct (find_sub (js "{{/if}}") r') as [[c' r'']|] eqn:E;
      [|discriminate].
    injection H as _ _ <- _.
    refine (find_sub_first _ _ _ _ _ E).
    intro Hx. vm_compute in Hx. discriminate.
Qed.

End BlockBodies.

Section HelperCalls.

Context {NO : NumberOps}.

(** The helper expression at [{{name ws args}}] when the argument text
    starts with a character that is not white space: the text is captured
    whole. *)
Lemma helperRegex_call (name ws args rest : jstring) :
  name <> [] -> forallb is_word name = true ->
  ws <> [] -> forallb is_space ws = true ->
  stops is_space args -> args <> [] -> forallb not_rbrace args = true ->
  helperRegex (js "{{" ++ name ++ ws ++ args ++ js "}}" ++ rest)
  = Some ((name, args), rest).
Proof.
  intros Hn Hnw Hw Hws Hst Ha Har. unfold helperRegex.
  rewrite strip_prefix_app.
  assert (Hsw : stops is_word (ws ++ args ++ js "}}" ++ rest)).
  { destruct ws as [|c ws]; [congruence|]. simpl in *.
    apply andb_prop in Hws as [Hc _].
    destruct (is_word c) eqn:Hwc; [|reflexivity].
    apply word_not_space in Hwc. congruence. }
  rewrite (span_app is_word name _ Hnw Hsw).
  destruct name as [|n0 name]; [congruence|]. cbn [is_nil].
  rewrite (span_app is_space ws (args ++ js "}}" ++ rest) Hws).
  2: { destruct args; [congruence|]. exact Hst. }
  destruct ws as [|w0 ws]; [congruence|]. cbn [is_nil].
  rewrite (span_app not_rbrace args (js "}}" ++ rest) Har) by reflexivity.
  rewrite strip_prefix_app. destruct args; [congruence|]. reflexivity.
Qed.

Lemma processHelpers_at_call (E : Engine) (data : JV NO)
    (h : list (JV NO) -> Res (JV NO)) (pre name ws args post : jstring) :
  helpers E !! name = Some h ->
  no_lbrace pre = true ->
  name <> [] -> forallb is_word name = true ->
  ws <> [] -> forallb is_space ws = true ->
  stops is_space args -> args <> [] -> forallb not_rbrace args = true ->
  processHelpers E (pre ++ (js "{{" ++ name ++ ws ++ args ++ js "}}") ++ post)
    data =
  (v <- h (parseHelperArgs args data) ;;;
   out <- processHelpers E post data ;;;
   Ok (pre ++ ToString v ++ out)).
Proof.
  intros Hh Hpre Hn Hnw Hw Hws Hst Ha Har. unfold processHelpers.
  rewrite (replace_all_prefix _ _ _ _ helperRegex_lbrace Hpre).
  rewrite (replace_all_match helperRegex _ _ post (name, args)).
  - unfold helper_callback at 1. cbv beta iota. rewrite Hh.
    destruct (h (parseHelperArgs args data)); cbn [bindR];
      try reflexivity.
    rewrite bindR_assoc. reflexivity.
  - discriminate.
  - rewrite <- (helperRegex_call name ws args post) by assumption.
    f_equal. rewrite <- !app_assoc. reflexivity.
Qed.

(** X7. In the helper pass a construct [{{name args}}] whose name is in
    the registry is replaced by the string conversion of what the helper
    returns on the parsed arguments; when the helper throws, the pass
    throws and nothing is rendered. *)
Theorem processHelpers_invokes (E : Engine) (data : JV NO)
    (h : list (JV NO) -> Res (JV NO)) (pre name ws args post : jstring) :
  helpers E !! name = Some h ->
  no_lbrace pre = true ->
  name <> [] -> forallb is_word name = true ->
  ws <> [] -> forallb is_space ws = true ->
  stops is_space args -> args <> [] -> forallb not_rbrace args = true ->
  processHelpers E (pre ++ (js "{{" ++ name ++ ws ++ args ++ js "}}") ++ post)
    data =
  (v <- h (parseHelperArgs args data) ;;;
   out <- processHelpers E post data ;;;
   Ok (pre ++ ToString v ++ out))
  /\ (h (parseHelperArgs args data) = Throw ->
      processHelpers E
        (pre ++ (js "{{" ++ name ++ ws ++ args ++ js "}}") ++ post) data
      = Throw).
Proof.
  intros Hh Hpre Hn Hnw Hw Hws Hst Ha Har.
  pose proof (processHelpers_at_call E data h pre name ws args post
                Hh Hpre Hn Hnw Hw Hws Hst Ha Har) as Heq.
  split; [exact Heq|]. intros Ht. rewrite Heq, Ht. reflexivity.
Qed.

(** X8. A helper cannot be called without an argument text: with one
    white-space character between the name and the closing braces the
    construct is not a helper call, and the helper pass leaves it as text
    whether or not the name is registered. *)
Theorem processHelpers_needs_argument (E : Engine) (data : JV NO)
    (name post : jstring) (sp : char) :
  name <> [] -> forallb is_word name = true -> is_space sp = true ->
  processHelpers E (js "{{" ++ name ++ [sp] ++ js "}}" ++ post) data
  = (out <- processHelpers E post data ;;;
     Ok (js "{{" ++ name ++ [sp] ++ js "}}" ++ out)).
Proof.
  intros Hn Hnw Hsp.
  assert (Hw0 : exists c name', name = c :: name' /\ is_word c = true).
  { destruct name as [|c name']; [congruence|]. simpl in Hnw.
    apply andb_prop in Hnw as [Hc _]. eauto. }
  destruct Hw0 as (c & name' & -> & Hc).
  assert (Hnone : helperRegex
                    (js "{{" ++ (c :: name') ++ [sp] ++ js "}}" ++ post)
                  = None).
  { unfold helperRegex. rewrite strip_prefix_app.
    rewrite (span_app is_word (c :: name') _ Hnw).
    2: { simpl. destruct (is_word sp) eqn:Hws; [|reflexivity].
         apply word_not_space in Hws. congruence. }
    cbn [is_nil].
    rewrite (span_app is_space [sp] (js "}}" ++ post)).
    2: { simpl. rewrite Hsp. reflexivity. }
    2: { reflexivity. }
    cbn [is_nil]. reflexivity. }
  unfold processHelpers.
  assert (Hassoc : (c :: name') ++ [sp] ++ js "}}" ++ post
                   = ((c :: name') ++ [sp] ++ js "}}") ++ post)
    by (rewrite <- !app_assoc; reflexivity).
  change (js "{{" ++ (c :: name') ++ [sp] ++ js "}}" ++ post)
    with (LBRACE :: LBRACE :: (c :: name') ++ [sp] ++ js "}}" ++ post)
    in Hnone |- *.
  change (js "{{" ++ (c :: name') ++ [sp] ++ js "}}" ++ ?x)
    with (LBRACE :: LBRACE :: (c :: name') ++ [sp] ++ js "}}" ++ x).
  rewrite Hassoc in Hnone |- *.
  rewrite (replace_all_step helperRegex _ _ _ Hnone).
  assert (Hsecond : helperRegex
                      (LBRACE :: ((c :: name') ++ [sp] ++ js "}}") ++ post)
                    = None).
  { unfold helperRegex. change (js "{{") with [LBRACE; LBRACE].
    cbn [app strip_prefix]. unfold char_eqb at 1. rewrite N.eqb_refl.
    destruct (char_eqb LBRACE c) eqn:Ec; [|reflexivity].
    apply N.eqb_eq in Ec. subst c. discriminate. }
  rewrite (replace_all_step helperRegex _ _ _ Hsecond).
  rewrite (replace_all_prefix helperRegex _ _ post helperRegex_lbrace).
  - rewrite !bindR_assoc. cbn [bindR].
    destruct (replace_all helperRegex (helper_callback E data) post);
      cbn [bindR]; rewrite <- ?app_assoc; reflexivity.
  - unfold no_lbrace. rewrite forallb_app. apply andb_true_intro. split.
    + apply forallb_forall. intros x Hx.
      rewrite forallb_forall in Hnw. apply Hnw in Hx.
      apply is_word_range in Hx. apply negb_true_iff.
      unfold char_eqb, LBRACE. apply N.eqb_neq. lia.
    + simpl. rewrite andb_true_r. apply negb_true_iff.
      destruct (char_eqb sp LBRACE) eqn:Es; [|reflexivity].
      apply N.eqb_eq in Es. subst sp. discriminate.
Qed.

End HelperCalls.

Section RegistryFacts.

Context {NO : NumberOps}.

Lemma bindR_ext {A B} (r : Res A) (k k' : A -> Res B) :
  (forall a, k a = k' a) -> bindR r k = bindR r k'.
Proof. intros H. destruct r; simpl; auto. Qed.

Lemma passes_ext (E E' : @Engine NO)
    (rec rec' : jstring -> JV NO -> Res jstring) (template : jstring)
    (data : JV NO) :
  helpers E = helpers E' -> (forall t d, rec t d = rec' t d) ->
  passes E rec template data = passes E' rec' template data.
Proof.
  intros Hh Hr. unfold passes, processLoops, processConditionals,
    replaceIfElse, replaceIf, processHelpers, replace_all.
  rewrite (replace_from_ext loopRegex _
             (fun caps _ => loop_callback rec' data caps)).
  2: { intros [path content] m. unfold loop_callback.
       destruct (getValueByPath data path); try reflexivity.
       apply map_join_ext. apply List.Forall_forall. intros item _ i.
       unfold loop_item. destruct (replace_this_props item content);
         cbn [bindR]; auto. }
  apply bindR_ext. intros r1.
  rewrite (replace_from_ext ifElseRegex _
             (fun caps _ => ifElse_callback rec' data caps)).
  2: { intros [[path tc] fc] m. unfold ifElse_callback.
       destruct (truthy (getValueByPath data path)); auto. }
  rewrite !bindR_assoc. apply bindR_ext. intros t1.
  rewrite (replace_from_ext ifRegex _
             (fun caps _ => if_callback rec' data caps)).
  2: { intros [path content] m. unfold if_callback.
       destruct (truthy (getValueByPath data path)); auto. }
  apply bindR_ext. intros r2. apply replace_from_ext.
  intros [name args] m. unfold helper_callback. rewrite Hh. reflexivity.
Qed.

(** The pipeline reads the helper registry only. *)
Lemma processTemplate_helpers_only (E E' : @Engine NO) (n : nat)
    (template : jstring) (data : JV NO) :
  helpers E = helpers E' ->
  processTemplate E n template data = processTemplate E' n template data.
Proof.
  intros Hh. revert template data.
  induction n as [|n IH]; intros template data; [reflexivity|].
  cbn [processTemplate]. apply passes_ext; assumption.
Qed.

(** X9. Registering a template under one name does not change what
    [render] returns for any other name or raw template string. *)
Theorem registerTemplate_frame (E : @Engine NO) (name : jstring)
    (template : JV NO) (fuel : nat) (other : jstring) (data : JV NO) :
  other <> name ->
  render (registerTemplate name template E) fuel other data
  = render E fuel other data.
Proof.
  intros Hne. unfold render. cbn [templates registerTemplate].
  rewrite lookup_insert_ne by congruence.
  match goal with
  | |- processTemplateV _ _ ?h _ = _ => destruct h; try reflexivity
  end.
  apply processTemplate_helpers_only. reflexivity.
Qed.

(** X10. [render] by the name of a template that was registered as a
    string runs the pipeline on that string; when the registered value is
    falsy (the empty string, [null], [undefined], [false]) the name itself
    is rendered as raw markup. *)
Theorem render_registered_value (E : @Engine NO) (name : jstring)
    (v : JV NO) (fuel : nat) (data : JV NO) :
  templates E !! name = Some v ->
  (forall s, v = JStr s -> s <> [] ->
     render E fuel name data = processTemplate E fuel s data)
  /\ (truthy v = false ->
      render E fuel name data = processTemplate E fuel name data).
Proof.
  intros Hv. unfold render. rewrite Hv. split.
  - intros s -> Hs. destruct s as [|c s]; [congruence|]. cbn [truthy].
    assert (Hh : truthy (prop_of (@JStr NO (c :: s)) (js "html")) = false)
      by reflexivity.
    cbv zeta. rewrite Hh. reflexivity.
  - intros Hf. rewrite Hf. reflexivity.
Qed.

End RegistryFacts.

Section ItemText.

Context {NO : NumberOps}.

Lemma expand_dollar_app (before matched after x r : jstring) :
  no_dollar x = true ->
  expand_dollar before matched after (x ++ r)
  = x ++ expand_dollar before matched after r.
Proof.
  intros H. induction x as [|c x IH]; [reflexivity|]. simpl in H.
  apply andb_prop in H as [Hc Hx]. apply negb_true_iff in Hc.
  rewrite <- app_comm_cons. cbn [expand_dollar]. rewrite Hc, (IH Hx).
  reflexivity.
Qed.

Lemma expand_dollar_plain (before matched after x : jstring) :
  no_dollar x = true -> expand_dollar before matched after x = x.
Proof.
  intros H. rewrite <- (app_nil_r x) at 1.
  rewrite (expand_dollar_app _ _ _ x [] H). apply app_nil_r.
Qed.

(** A replacement whose expansion does not depend on the match is
    inserted the same way at every occurrence. *)
Lemma replace_this_from_const (repl out : jstring) :
  (forall b m a, expand_dollar b m a repl = out) ->
  forall s br skip,
    replace_this_from repl br skip s = replace_this_from repl [] skip s.
Proof.
  intros H s. induction s as [|c s IH]; intros br skip; [reflexivity|].
  cbn [replace_this_from]. destruct skip.
  - destruct (strip_prefix (js "{{this}}") (c :: s)).
    + rewrite !H, (IH (c :: br)), (IH [c]). reflexivity.
    + rewrite (IH (c :: br)), (IH [c]). reflexivity.
  - rewrite (IH (c :: br)), (IH [c]). reflexivity.
Qed.

Lemma replace_this_from_prefix (repl pre s br : jstring) :
  no_lbrace pre = true ->
  replace_this_from repl br 0 (pre ++ s)
  = pre ++ replace_this_from repl (rev pre ++ br) 0 s.
Proof.
  revert br. induction pre as [|c pre IH]; intros br H; [reflexivity|].
  simpl in H. apply andb_prop in H as [Hc Hpre].
  apply negb_true_iff in Hc. rewrite <- app_comm_cons.
  cbn [replace_this_from].
  rewrite (strip_prefix_first (js "{{this}}") c (pre ++ s) eq_refl Hc).
  rewrite (IH (c :: br) Hpre). cbn [rev]. rewrite <- app_assoc.
  reflexivity.
Qed.

Lemma replace_this_from_match (repl post br : jstring) :
  replace_this_from repl br 0 (js "{{this}}" ++ post)
  = expand_dollar (rev br) (js "{{this}}") post repl
    ++ replace_this_from repl (rev (js "{{this}}") ++ br) 0 post.
Proof.
  pose proof (strip_prefix_app (js "{{this}}") post) as Hs.
  change (js "{{this}}" ++ post)
    with (123 :: 123 :: 116 :: 104 :: 105 :: 115 :: 125 :: 125 :: post)
    in Hs |- *.
  cbn [replace_this_from]. rewrite Hs. reflexivity.
Qed.

Lemma replace_this_at (item : JV NO) (out pre post : jstring) :
  (forall b m a, expand_dollar b m a (this_text item) = out) ->
  no_lbrace pre = true ->
  replace_this item (pre ++ js "{{this}}" ++ post)
  = pre ++ out ++ replace_this item post.
Proof.
  intros Hout Hpre. unfold replace_this. fold (this_text item).
  rewrite (replace_this_from_prefix _ pre _ [] Hpre).
  rewrite replace_this_from_match, Hout.
  rewrite (replace_this_from_const _ out Hout post). reflexivity.
Qed.

(** X11. An item whose text holds no dollar sign is written in place of
    [{{this}}] as it is: the item itself when it is a scalar, its JSON
    serialization when its [typeof] is object. *)
Theorem replace_this_plain (item : JV NO) (pre post : jstring) :
  no_dollar (this_text item) = true -> no_lbrace pre = true ->
  replace_this item (pre ++ js "{{this}}" ++ post)
  = pre ++ this_text item ++ replace_this item post.
Proof.
  intros Hd Hpre. apply replace_this_at; [|exact Hpre].
  intros b m a. apply expand_dollar_plain, Hd.
Qed.

(** X12. The item text goes through the replacement patterns of
    [String.prototype.replace]: a string item that holds two dollar signs
    in a row is written with one of them. *)
Theorem replace_this_halves_dollars (x y pre post : jstring) :
  no_dollar x = true -> no_dollar y = true -> no_lbrace pre = true ->
  replace_this (@JStr NO (x ++ [DOLLAR; DOLLAR] ++ y))
    (pre ++ js "{{this}}" ++ post)
  = pre ++ (x ++ [DOLLAR] ++ y)
    ++ replace_this (@JStr NO (x ++ [DOLLAR; DOLLAR] ++ y)) post.
Proof.
  intros Hx Hy Hpre. apply replace_this_at; [|exact Hpre].
  intros b m a. unfold this_text. cbn [typeof_object ToString].
  rewrite (expand_dollar_app _ _ _ x _ Hx).
  change (expand_dollar b m a ([DOLLAR; DOLLAR] ++ y))
    with (DOLLAR :: expand_dollar b m a y).
  rewrite (expand_dollar_plain _ _ _ y Hy). reflexivity.
Qed.

End ItemText.

Section LoopBlocks.

Context {NO : NumberOps}.








End LoopBlocks.

Section Divergence.

Context {NO : NumberOps}.

(** X13. The recursion of the pipeline is not bounded by the template: on
    the loop [{{#each items}}{{this}}{{/each}}], in a context whose
    [items] holds that same text as its one element, the pipeline re-enters
    itself on the same template at every depth and never returns. *)
Theorem processTemplate_unbounded_recursion (E : @Engine NO) (n : nat)
    (props : list (jstring * JV NO)) :
  assoc (js "items") props = Some (JArr [JStr each_this]) ->
  processTemplate E n each_this (JObj props) = OutOfFuel.
Proof.
  revert props. induction n as [|n IH]; intros props H; [reflexivity|].
  cbn [processTemplate]. unfold passes.
  pose proof (processLoops_block (processTemplate E n) (JObj props)
                (js " ") (js "items") (js "{{this}}") []
                ltac:(intro Hx; vm_compute in Hx; discriminate)
                eq_refl eq_refl eq_refl) as Hb.
  change ((js "{{#each" ++ js " " ++ js "items" ++ js "}}" ++
           js "{{this}}" ++ js "{{/each}}") ++ []) with each_this in Hb.
  rewrite Hb. clear Hb.
  assert (Hv : getValueByPath (JObj props) (js "items")
               = JArr [JStr each_this]).
  { change (getValueByPath (JObj props) (js "items"))
      with (default JUndef (assoc (js "items") props)).
    rewrite H. reflexivity. }
  unfold loop_callback. rewrite Hv. cbn [map_join length].
  unfold loop_item.
  assert (Hp : replace_this_props (@JStr NO each_this) (js "{{this}}")
               = Ok (js "{{this}}")) by reflexivity.
  rewrite Hp. cbn [bindR].
  assert (Ht : replace_this (@JStr NO each_this) (js "{{this}}")
               = each_this) by reflexivity.
  rewrite Ht. unfold itemData. cbn [own_props].
  rewrite IH; [reflexivity|].
  rewrite !assoc_obj_set_neq
    by (intro Hx; vm_compute in Hx; discriminate).
  exact H.
Qed.

End Divergence.

Section DefaultHelperFacts.

Context {NO : NumberOps} (HB : HelperBuiltins NO).

Lemma scan_path_chars (t q r : jstring) :
  scan_path t = (q, r) -> forallb path_char q = true.
Proof.
  revert q r. induction t as [|d t IH]; intros q r H.
  - simpl in H. inversion H. reflexivity.
  - rewrite scan_path_cons in H. destruct (is_word d) eqn:Hd.
    + destruct (scan_path t) as [a b] eqn:Ht. inversion H; subst.
      simpl. unfold path_char at 1. rewrite Hd. apply (IH a r eq_refl).
    + destruct (char_eqb d DOT) eqn:Hdot; [|inversion H; reflexivity].
      destruct t as [|e t]; [inversion H; reflexivity|].
      destruct (is_word e); [|inversion H; reflexivity].
      destruct (scan_path (e :: t)) as [a b] eqn:Ht. inversion H; subst.
      simpl. unfold path_char at 1. rewrite Hdot, orb_true_r.
      apply (IH a r eq_refl).
Qed.

Lemma is_path_chars (p : jstring) :
  is_path p -> forallb path_char p = true.
Proof.
  unfold is_path, match_path. destruct p as [|c p]; [discriminate|].
  destruct (is_word c); [|discriminate]. intros H.
  apply (scan_path_chars (c :: p) (c :: p) []). congruence.
Qed.

Lemma path_char_facts (c : char) :
  path_char c = true ->
  is_space c = false /\ is_bare c = true /\ not_rbrace c = true.
Proof.
  unfold path_char. intros H. apply orb_prop in H as [H|H].
  - pose proof (word_not_space c H) as Hs. apply is_word_range in H.
    unfold is_bare, not_rbrace, char_eqb, QUOTE, RBRACE. rewrite Hs.
    repeat split; simpl; apply negb_true_iff, N.eqb_neq; lia.
  - apply N.eqb_eq in H. subst c. repeat split; reflexivity.
Qed.

Lemma forallb_impl {A} (f g : A -> bool) (l : list A) :
  (forall x, f x = true -> g x = true) ->
  forallb f l = true -> forallb g l = true.
Proof.
  intros H. induction l as [|x l IH]; [reflexivity|]. simpl.
  intros Hl. apply andb_prop in Hl as [Hx Hl]. rewrite (H x Hx). auto.
Qed.

(** A dotted path that is neither [true], [false] nor numeric, as the one
    argument of a helper call, is resolved in the context. *)
Lemma parseHelperArgs_path (data : JV NO) (p : jstring) :
  is_path p -> jstring_eqb p (js "true") = false ->
  jstring_eqb p (js "false") = false -> string_to_number NO p = None ->
  parseHelperArgs p data = [getValueByPath data p].
Proof.
  intros Hp Ht Hf Hn. pose proof (is_path_chars p Hp) as Hc.
  assert (Hok : token_ok (Bare p) = true).
  { simpl. destruct (path_head_word p Hp) as (c & p' & -> & _).
    cbn [is_nil negb andb].
    apply (forallb_impl path_char); [|exact Hc].
    intros x Hx. apply path_char_facts, Hx. }
  unfold parseHelperArgs.
  pose proof (arg_parts_tokens [(Bare p, [])]) as Hparts.
  cbn [args_text token_text separated List.map fst] in Hparts.
  rewrite !app_nil_r in Hparts. rewrite Hparts.
  - pose proof (parse_part_token data (Bare p) Hok) as Hpp.
    cbn [token_text token_value] in Hpp. rewrite Ht, Hf, Hn in Hpp.
    cbn [List.map]. rewrite Hpp. reflexivity.
  - rewrite Hok. reflexivity.
Qed.

Lemma default_helper_join :
  helpers (new_TemplateEngine HB) !! js "join" = Some join.
Proof.
  unfold new_TemplateEngine, registerDefaultHelpers, registerHelper.
  cbn [helpers].
  rewrite !lookup_insert_ne by (intro Hx; vm_compute in Hx; discriminate).
  apply lookup_insert_eq.
Qed.

Lemma default_helper_capitalize :
  helpers (new_TemplateEngine HB) !! js "capitalize" = Some (capitalize HB).
Proof.
  unfold new_TemplateEngine, registerDefaultHelpers, registerHelper.
  cbn [helpers].
  rewrite !lookup_insert_ne by (intro Hx; vm_compute in Hx; discriminate).
  apply lookup_insert_eq.
Qed.

(** X14. On an evaluator as the constructor leaves it, [{{join p}}] with
    a path [p] that resolves to a sequence renders the elements joined by
    a comma and a space, a [null] or [undefined] element as the empty
    string; with a path that resolves to anything else it renders
    nothing. *)
Theorem join_call_renders (data : JV NO) (pre p post : jstring) :
  no_lbrace pre = true -> is_path p ->
  jstring_eqb p (js "true") = false -> jstring_eqb p (js "false") = false ->
  string_to_number NO p = None ->
  processHelpers (new_TemplateEngine HB)
    (pre ++ (js "{{join " ++ p ++ js "}}") ++ post) data =
  (out <- processHelpers (new_TemplateEngine HB) post data ;;;
   Ok (pre ++
       match getValueByPath data p with
       | JArr l => join_with (js ", ") (List.map element_text l)
       | _ => []
       end ++ out)).
Proof.
  intros Hpre Hp Ht Hf Hn. pose proof (is_path_chars p Hp) as Hc.
  destruct (path_head_word p Hp) as (c & p' & Ep & Hw).
  assert (Hst : stops is_space p)
    by (subst p; simpl; apply word_not_space, Hw).
  assert (Hne : p <> []) by (subst p; discriminate).
  assert (Hrb : forallb not_rbrace p = true).
  { apply (forallb_impl path_char); [|exact Hc].
    intros x Hx. apply path_char_facts, Hx. }
  pose proof (processHelpers_at_call (new_TemplateEngine HB) data
                join pre (js "join") (js " ") p post
                default_helper_join Hpre
                ltac:(intro Hx; vm_compute in Hx; discriminate) eq_refl
                ltac:(intro Hx; vm_compute in Hx; discriminate) eq_refl
                Hst Hne Hrb) as Heq.
  change (js "{{join " ++ p ++ js "}}")
    with (js "{{" ++ js "join" ++ js " " ++ p ++ js "}}").
  rewrite Heq, (parseHelperArgs_path data p Hp Ht Hf Hn).
  unfold join, arg_default, arg. cbn [nth].
  destruct (getValueByPath data p); reflexivity.
Qed.

(** X15. [{{capitalize p}}] aborts the render when [p] resolves to a
    truthy value that is not a string (a number, [true], a sequence, a
    mapping): only a string has [charAt].  On a string it upper-cases the
    first code unit and keeps the rest; on a falsy value it renders
    nothing. *)
Theorem capitalize_call (data : JV NO) (pre p post : jstring) :
  no_lbrace pre = true -> is_path p ->
  jstring_eqb p (js "true") = false -> jstring_eqb p (js "false") = false ->
  string_to_number NO p = None ->
  processHelpers (new_TemplateEngine HB)
    (pre ++ (js "{{capitalize " ++ p ++ js "}}") ++ post) data =
  match getValueByPath data p with
  | JStr (c :: rest) =>
      out <- processHelpers (new_TemplateEngine HB) post data ;;;
      Ok (pre ++ (toUpperCase HB [c] ++ rest) ++ out)
  | v =>
      if truthy v then Throw
      else (out <- processHelpers (new_TemplateEngine HB) post data ;;;
            Ok (pre ++ out))
  end.
Proof.
  intros Hpre Hp Ht Hf Hn. pose proof (is_path_chars p Hp) as Hc.
  destruct (path_head_word p Hp) as (c & p' & Ep & Hw).
  assert (Hst : stops is_space p)
    by (subst p; simpl; apply word_not_space, Hw).
  assert (Hne : p <> []) by (subst p; discriminate).
  assert (Hrb : forallb not_rbrace p = true).
  { apply (forallb_impl path_char); [|exact Hc].
    intros x Hx. apply path_char_facts, Hx. }
  pose proof (processHelpers_at_call (new_TemplateEngine HB) data
                (capitalize HB) pre (js "capitalize") (js " ") p post
                default_helper_capitalize Hpre
                ltac:(intro Hx; vm_compute in Hx; discriminate) eq_refl
                ltac:(intro Hx; vm_compute in Hx; discriminate) eq_refl
                Hst Hne Hrb) as Heq.
  change (js "{{capitalize " ++ p ++ js "}}")
    with (js "{{" ++ js "capitalize" ++ js " " ++ p ++ js "}}").
  rewrite Heq, (parseHelperArgs_path data p Hp Ht Hf Hn).
  unfold capitalize, arg. cbn [nth].
  destruct (getValueByPath data p) as [| |b|x|s|l|ps]; cbn [truthy negb];
    try reflexivity.
  - destruct b; reflexivity.
  - destruct (num_truthy NO x); reflexivity.
  - destruct s; reflexivity.
Qed.

End DefaultHelperFacts.

Section TruncateFacts.

Context {NO : NumberOps} (HB : HelperBuiltins NO).

(** X16. [truncate] on a non-empty string and a limit [n], where [<=] and
    [substring] do on natural numbers what they do in the language: a
    string of at most [n] code units comes back as it is; a longer one
    comes back as its first [n] code units and three dots, [n + 3] code
    units in all, which is longer than the string itself when that has
    [n + 1] or [n + 2]. *)
Theorem truncate_string (s : jstring) (n : nat) :
  s <> [] ->
  js_le HB (JNum (num_of_nat NO (length s))) (JNum (num_of_nat NO n))
  = Nat.leb (length s) n ->
  substring_0 HB s (JNum (num_of_nat NO n)) = firstn n s ->
  exists r,
    truncate HB [JStr s; JNum (num_of_nat NO n)] = Ok (JStr r)
    /\ r = (if Nat.leb (length s) n then s else firstn n s ++ js "...")
    /\ ((length s <= n)%nat -> r = s)
    /\ ((n < length s)%nat -> length r = (n + 3)%nat).
Proof.
  intros Hs Hle Hsub. eexists. split; [|split; [reflexivity|split]].
  - unfold truncate, arg_default, arg. cbn [nth truthy].
    destruct s as [|c s]; [congruence|]. cbn [negb].
    change (prop_of (JStr (c :: s)) (js "length"))
      with (@JNum NO (num_of_nat NO (length (c :: s)))).
    rewrite Hle, Hsub.
    destruct (Nat.leb (length (c :: s)) n); reflexivity.
  - intros H. apply Nat.leb_le in H. rewrite H. reflexivity.
  - intros H. apply Nat.leb_gt in H. rewrite H.
    apply Nat.leb_gt in H. rewrite length_app, length_take.
    change (length (js "...")) with 3%nat. lia.
Qed.

End TruncateFacts.

Section TemplateNameFacts.

Context {NO : NumberOps}.

Lemma names_set_present (k : jstring) (v : JV NO)
    (entries : list (jstring * JV NO)) :
  In k (List.map fst entries) ->
  List.map fst (obj_set k v entries) = List.map fst entries.
Proof.
  induction entries as [|[k' v'] l IH]; intros H; [destruct H|].
  simpl. destruct (jstring_eqb k k') eqn:E.
  - apply jstring_eqb_eq in E. subst k'. reflexivity.
  - simpl. f_equal. apply IH. destruct H as [H|H]; [|exact H].
    simpl in H. subst k'. rewrite jstring_eqb_refl in E. discriminate.
Qed.

Lemma names_set_fresh (k : jstring) (v : JV NO)
    (entries : list (jstring * JV NO)) :
  ~ In k (List.map fst entries) ->
  List.map fst (obj_set k v entries) = List.map fst entries ++ [k].
Proof.
  induction entries as [|[k' v'] l IH]; intros H; [reflexivity|].
  simpl. destruct (jstring_eqb k k') eqn:E.
  - apply jstring_eqb_eq in E. subst k'. exfalso. apply H. left. reflexivity.
  - simpl. f_equal. apply IH. intros Hin. apply H. right. exact Hin.
Qed.

Lemma templates_of_set (k : jstring) (v : JV NO)
    (entries : list (jstring * JV NO)) :
  templates_of (set_template k v entries)
  = <[k := v]> (templates_of entries).
Proof.
  unfold templates_of, set_template.
  induction entries as [|[k' v'] l IH]; [reflexivity|].
  simpl. destruct (jstring_eqb k k') eqn:E.
  - apply jstring_eqb_eq in E. subst k'. simpl.
    rewrite insert_insert_eq. reflexivity.
  - simpl. rewrite IH. apply insert_insert_ne. intros ->.
    rewrite jstring_eqb_refl in E. discriminate.
Qed.

(** X17. Registering templates keeps the list that [getTemplateNames]
    returns free of repetitions and in the order of first registration: a
    name that is already registered keeps its place, a new name goes to
    the end; in both cases [getTemplate] then answers the template just
    registered. *)
Theorem getTemplateNames_registration (name : jstring) (template : JV NO)
    (entries : list (jstring * JV NO)) (hs : gmap jstring _) :
  NoDup (getTemplateNames entries) ->
  NoDup (getTemplateNames (set_template name template entries))
  /\ (In name (getTemplateNames entries) ->
      getTemplateNames (set_template name template entries)
      = getTemplateNames entries)
  /\ (~ In name (getTemplateNames entries) ->
      getTemplateNames (set_template name template entries)
      = getTemplateNames entries ++ [name])
  /\ {| templates := templates_of (set_template name template entries);
        helpers := hs |}
     = registerTemplate name template
         {| templates := templates_of entries; helpers := hs |}
  /\ getTemplate name
       {| templates := templates_of (set_template name template entries);
          helpers := hs |}
     = template.
Proof.
  intros Hnd. unfold getTemplateNames, set_template.
  assert (Hin : In name (List.map fst entries)
                \/ ~ In name (List.map fst entries)).
  { destruct (List.in_dec (List.list_eq_dec N.eq_dec) name
                (List.map fst entries)); auto. }
  repeat split.
  - destruct Hin as [Hin|Hin].
    + rewrite names_set_present by exact Hin. exact Hnd.
    + rewrite names_set_fresh by exact Hin.
      apply list.NoDup_app. split; [exact Hnd|]. split.
      * intros x Hx Hk. apply list_elem_of_singleton in Hk. subst x.
        apply list_elem_of_In in Hx. contradiction.
      * apply list.NoDup_singleton.
  - apply names_set_present.
  - apply names_set_fresh.
  - unfold registerTemplate. cbn [templates helpers]. f_equal.
    apply templates_of_set.
  - unfold getTemplate. cbn [templates].
    pose proof (templates_of_set name template entries) as Hs.
    unfold set_template in Hs. rewrite Hs, lookup_insert_eq. reflexivity.
Qed.

End TemplateNameFacts.

Section PassOrder.

Context {NO : NumberOps}.

Lemma space_not_lbrace (c : char) :
  is_space c = true -> negb (char_eqb c LBRACE) = true.
Proof.
  intros H. apply negb_true_iff. destruct (char_eqb c LBRACE) eqn:E;
    [|reflexivity].
  apply N.eqb_eq in E. subst c. discriminate.
Qed.

Lemma path_char_not_lbrace (c : char) :
  path_char c = true -> negb (char_eqb c LBRACE) = true.
Proof.
  unfold path_char. intros H. apply negb_true_iff.
  destruct (char_eqb c LBRACE) eqn:E; [|reflexivity].
  apply N.eqb_eq in E. subst c. discriminate.
Qed.

(** X18. Loops are expanded before any conditional is looked at: a loop
    block written after an opening if-marker is expanded whatever the
    condition resolves to, and when its expansion throws the whole
    pipeline throws, also where the condition is falsy. *)
Theorem loop_in_conditional_is_expanded (E : Engine) (n : nat)
    (data : JV NO) (ws g A ws' p content post : jstring) :
  ws <> [] -> forallb is_space ws = true -> is_path g ->
  no_lbrace A = true ->
  ws' <> [] -> forallb is_space ws' = true -> is_path p ->
  find_sub (js "{{/each}}") (content ++ js "{{/each}}" ++ post)
  = Some (content, post) ->
  let rec := processTemplate E n in
  let guard := js "{{#if" ++ ws ++ g ++ js "}}" ++ A in
  let block :=
    js "{{#each" ++ ws' ++ p ++ js "}}" ++ content ++ js "{{/each}}" in
  processLoops rec (guard ++ block ++ post) data =
  (r <- loop_callback rec data (p, content) ;;;
   out <- processLoops rec post data ;;;
   Ok (guard ++ r ++ out))
  /\ (loop_callback rec data (p, content) = Throw ->
      passes E rec (guard ++ block ++ post) data = Throw).
Proof.
  intros Hw Hws Hg HA Hw' Hws' Hp Hf rec guard block.
  assert (Heq : processLoops rec (guard ++ block ++ post) data =
                (r <- loop_callback rec data (p, content) ;;;
                 out <- processLoops rec post data ;;;
                 Ok (guard ++ r ++ out))).
  { set (tail := js "#if" ++ ws ++ g ++ js "}}" ++ A).
    assert (Hguard : guard = LBRACE :: LBRACE :: tail) by reflexivity.
    assert (Htail : no_lbrace tail = true).
    { unfold tail, no_lbrace. rewrite !forallb_app.
      repeat (apply andb_true_intro; split); try reflexivity.
      - apply (forallb_impl is_space); [apply space_not_lbrace|exact Hws].
      - apply (forallb_impl path_char);
          [apply path_char_not_lbrace | apply is_path_chars, Hg].
      - exact HA. }
    rewrite Hguard. unfold processLoops.
    rewrite <- !app_comm_cons.
    rewrite (replace_all_step loopRegex) by reflexivity.
    rewrite (replace_all_step loopRegex) by reflexivity.
    rewrite (replace_all_prefix loopRegex _ tail _ loopRegex_lbrace Htail).
    pose proof (processLoops_block rec data ws' p content post
                  Hw' Hws' Hp Hf) as Hb.
    unfold processLoops in Hb. fold block in Hb. rewrite Hb.
    rewrite !bindR_assoc. apply bindR_ext. intros r. cbv beta.
    rewrite !bindR_assoc. apply bindR_ext. intros out. reflexivity. }
  split; [exact Heq|]. intros Ht. unfold passes. rewrite Heq, Ht.
  reflexivity.
Qed.

Lemma find_sub_absent_char (c : char) (pat s : jstring) :
  In c pat -> ~ In c s -> find_sub pat s = None.
Proof.
  intros Hc Hs. destruct (find_sub pat s) as [[a b]|] eqn:E; [|reflexivity].
  apply find_sub_Some in E. subst s. exfalso. apply Hs.
  apply in_or_app. right. apply in_or_app. left. exact Hc.
Qed.

Lemma reference_has_no_slash (p : jstring) :
  is_path p -> ~ In 47 (js "{{" ++ p ++ js "}}").
Proof.
  intros Hp Hin. pose proof (is_path_chars p Hp) as Hc.
  apply in_app_or in Hin as [Hin|Hin].
  { simpl in Hin. destruct Hin as [H|[H|[]]]; discriminate. }
  apply in_app_or in Hin as [Hin|Hin].
  - rewrite forallb_forall in Hc. apply Hc in Hin. discriminate.
  - simpl in Hin. destruct Hin as [H|[H|[]]]; discriminate.
Qed.

(** X19. A string that the variable pass writes is read again by the
    helper pass: rendering [{{p}}] where [p] resolves to a string [s] is
    running the helper pass on [s], so a helper call written in the data is
    executed - the string conversion of what the helper returns takes
    its place. *)
Theorem value_is_read_by_helper_pass (E : Engine) (n : nat) (data : JV NO)
    (p s : jstring) :
  is_path p -> getValueByPath data p = JStr s ->
  processTemplate E (S n) (js "{{" ++ p ++ js "}}") data
  = processHelpers E s data
  /\ (forall h name ws args,
        s = js "{{" ++ name ++ ws ++ args ++ js "}}" ->
        helpers E !! name = Some h ->
        name <> [] -> forallb is_word name = true ->
        ws <> [] -> forallb is_space ws = true ->
        stops is_space args -> args <> [] ->
        forallb not_rbrace args = true ->
        processTemplate E (S n) (js "{{" ++ p ++ js "}}") data
        = (v <- h (parseHelperArgs args data) ;;; Ok (ToString v))).
Proof.
  intros Hp Hv.
  assert (Heq : processTemplate E (S n) (js "{{" ++ p ++ js "}}") data
                = processHelpers E s data).
  { pose proof (reference_has_no_slash p Hp) as Hs.
    assert (He : find_sub (js "{{/each}}") (js "{{" ++ p ++ js "}}") = None).
    { apply (find_sub_absent_char 47); [|exact Hs].
      right. right. left. reflexivity. }
    assert (Hi : find_sub (js "{{/if}}") (js "{{" ++ p ++ js "}}") = None).
    { apply (find_sub_absent_char 47); [|exact Hs].
      right. right. left. reflexivity. }
    cbn [processTemplate]. unfold passes, processLoops.
    rewrite (replace_all_untouched loopRegex _ _ (loopRegex_nowhere _ He)).
    cbn [bindR]. unfold processConditionals, replaceIfElse, replaceIf.
    rewrite (replace_all_untouched ifElseRegex _ _
               (ifElseRegex_unclosed _ Hi)).
    cbn [bindR].
    rewrite (replace_all_untouched ifRegex _ _ (ifRegex_nowhere _ Hi)).
    cbn [bindR]. f_equal. unfold processVariables.
    pose proof (replace_pure_match varRegex (var_callback data)
                  (js "{{" ++ p ++ js "}}") [] p) as Hm.
    rewrite app_nil_r in Hm. rewrite Hm.
    - unfold var_callback.
      destruct (path_head_word p Hp) as (c & p' & -> & Hc).
      apply is_word_range in Hc.
      replace (char_eqb c 35 || char_eqb c 47) with false.
      + rewrite Hv. cbn [is_nullish typeof_object ToString].
        apply app_nil_r.
      + symmetry. apply orb_false_iff. unfold char_eqb.
        rewrite !N.eqb_neq. lia.
    - discriminate.
    - pose proof (varRegex_ref p [] Hp) as Hr.
      rewrite app_nil_r in Hr. exact Hr. }
  split; [exact Heq|].
  intros h name ws args -> Hh Hn Hnw Hw Hws Hst Ha Har. rewrite Heq.
  pose proof (processHelpers_at_call E data h [] name ws args []
                Hh eq_refl Hn Hnw Hw Hws Hst Ha Har) as Hc.
  cbn [app] in Hc. rewrite app_nil_r in Hc. rewrite Hc.
  apply bindR_ext. intros v. cbn [processHelpers replace_all replace_from].
  unfold processHelpers, replace_all. cbn [replace_from bindR].
  rewrite app_nil_r. reflexivity.
Qed.

End PassOrder.

Section QuotedArguments.

Context {NO : NumberOps} (HB : HelperBuiltins NO).

Lemma parseHelperArgs_tokens (data : JV NO)
    (ts : list (arg_token * jstring)) :
  separated ts = true ->
  parseHelperArgs (args_text ts) data
  = List.map (fun x => token_value data (fst x)) ts.
Proof.
  intros Hs. unfold parseHelperArgs. rewrite (arg_parts_tokens ts Hs).
  rewrite List.map_map. apply List.map_ext_in. intros [t ws] Hin.
  apply parse_part_token. simpl.
  pose proof (separated_tokens_ok ts Hs) as Hok.
  rewrite List.Forall_forall in Hok. apply (Hok (t, ws)), Hin.
Qed.

Lemma default_helper_if :
  helpers (new_TemplateEngine HB) !! js "if" = Some if_helper.
Proof.
  unfold new_TemplateEngine, registerDefaultHelpers, registerHelper.
  cbn [helpers]. apply lookup_insert_eq.
Qed.

Lemma path_token (data : JV NO) (p : jstring) :
  is_path p -> jstring_eqb p (js "true") = false ->
  jstring_eqb p (js "false") = false -> string_to_number NO p = None ->
  token_ok (Bare p) = true
  /\ token_value data (Bare p) = getValueByPath data p
  /\ forallb not_rbrace p = true /\ stops is_space p /\ p <> [].
Proof.
  intros Hp Ht Hf Hn. pose proof (is_path_chars p Hp) as Hc.
  destruct (path_head_word p Hp) as (c & p' & Ep & Hw).
  repeat split.
  - simpl. subst p. cbn [is_nil negb andb].
    apply (forallb_impl path_char); [|exact Hc].
    intros x Hx. apply path_char_facts, Hx.
  - cbn [token_value]. rewrite Ht, Hf, Hn. reflexivity.
  - apply (forallb_impl path_char); [|exact Hc].
    intros x Hx. apply path_char_facts, Hx.
  - subst p. simpl. apply word_not_space, Hw.
  - subst p. discriminate.
Qed.

Lemma quoted_facts (s : jstring) :
  quotable s = true ->
  token_ok (Quoted s) = true /\ forallb not_rbrace (quoted s) = true.
Proof.
  unfold quotable, quoted. intros H. apply andb_prop in H as [Hq Hr].
  split; [exact Hq|]. cbn [forallb]. rewrite forallb_app, Hr. reflexivity.
Qed.

(** X20. The inline conditional of the default helpers:
    [{{if p "a" "b"}}] renders [a] when the path [p] resolves to a truthy
    value and [b] otherwise; without the third argument it renders [a] or
    nothing. *)
Theorem if_call_selects (data : JV NO) (pre p a b post : jstring) :
  no_lbrace pre = true -> is_path p ->
  jstring_eqb p (js "true") = false -> jstring_eqb p (js "false") = false ->
  string_to_number NO p = None ->
  quotable a = true -> quotable b = true ->
  processHelpers (new_TemplateEngine HB)
    (pre ++ (js "{{if " ++ (p ++ js " " ++ quoted a ++ js " " ++ quoted b)
             ++ js "}}") ++ post) data =
  (out <- processHelpers (new_TemplateEngine HB) post data ;;;
   Ok (pre ++ (if truthy (getValueByPath data p) then a else b) ++ out))
  /\ processHelpers (new_TemplateEngine HB)
       (pre ++ (js "{{if " ++ (p ++ js " " ++ quoted a) ++ js "}}") ++ post)
       data =
     (out <- processHelpers (new_TemplateEngine HB) post data ;;;
      Ok (pre ++ (if truthy (getValueByPath data p) then a else []) ++ out)).
Proof.
  intros Hpre Hp Ht Hf Hn Ha Hb.
  destruct (path_token data p Hp Ht Hf Hn) as (Hok & Hval & Hrb & Hst & Hne).
  destruct (quoted_facts a Ha) as [Hoa Hra].
  destruct (quoted_facts b Hb) as [Hob Hrb'].
  split.
  - set (args := p ++ js " " ++ quoted a ++ js " " ++ quoted b).
    assert (Hargs : parseHelperArgs args data
                    = [getValueByPath data p; JStr a; JStr b]).
    { pose proof (parseHelperArgs_tokens data
                    [(Bare p, js " "); (Quoted a, js " "); (Quoted b, [])])
        as H.
      assert (Htxt : args_text
                       [(Bare p, js " "); (Quoted a, js " "); (Quoted b, [])]
                     = args)
        by (unfold args, quoted; cbn [args_text token_text];
            rewrite !app_nil_r; reflexivity).
      rewrite Htxt in H. rewrite H.
      - cbn [List.map fst]. rewrite Hval. reflexivity.
      - cbn [separated]. rewrite Hok, Hoa, Hob. reflexivity. }
    pose proof (processHelpers_at_call (new_TemplateEngine HB) data
                  if_helper pre (js "if") (js " ") args post
                  default_helper_if Hpre
                  ltac:(intro Hx; vm_compute in Hx; discriminate) eq_refl
                  ltac:(intro Hx; vm_compute in Hx; discriminate) eq_refl
                  ltac:(unfold args; destruct p; [congruence|exact Hst])
                  ltac:(unfold args; destruct p; [congruence|discriminate])
                  ltac:(unfold args; rewrite !forallb_app, Hrb, Hra, Hrb';
                        reflexivity)) as Heq.
    change (js "{{if " ++ args ++ js "}}")
      with (js "{{" ++ js "if" ++ js " " ++ args ++ js "}}").
    rewrite Heq, Hargs. unfold if_helper, arg_default, arg.
    cbn [nth bindR].
    destruct (truthy (getValueByPath data p)); reflexivity.
  - set (args := p ++ js " " ++ quoted a).
    assert (Hargs : parseHelperArgs args data
                    = [getValueByPath data p; JStr a]).
    { pose proof (parseHelperArgs_tokens data
                    [(Bare p, js " "); (Quoted a, [])]) as H.
      assert (Htxt : args_text [(Bare p, js " "); (Quoted a, [])] = args)
        by (unfold args, quoted; cbn [args_text token_text];
            rewrite !app_nil_r; reflexivity).
      rewrite Htxt in H. rewrite H.
      - cbn [List.map fst]. rewrite Hval. reflexivity.
      - cbn [separated]. rewrite Hok, Hoa. reflexivity. }
    pose proof (processHelpers_at_call (new_TemplateEngine HB) data
                  if_helper pre (js "if") (js " ") args post
                  default_helper_if Hpre
                  ltac:(intro Hx; vm_compute in Hx; discriminate) eq_refl
                  ltac:(intro Hx; vm_compute in Hx; discriminate) eq_refl
                  ltac:(unfold args; destruct p; [congruence|exact Hst])
                  ltac:(unfold args; destruct p; [congruence|discriminate])
                  ltac:(unfold args; rewrite !forallb_app, Hrb, Hra;
                        reflexivity)) as Heq.
    change (js "{{if " ++ args ++ js "}}")
      with (js "{{" ++ js "if" ++ js " " ++ args ++ js "}}").
    rewrite Heq, Hargs. unfold if_helper, arg_default, arg.
    cbn [nth bindR].
    destruct (truthy (getValueByPath data p)); reflexivity.
Qed.

(** X21. [{{join p "sep"}}] with a path [p] that resolves to a sequence
    renders the elements joined by the quoted separator, white space in it
    included. *)
Theorem join_call_with_separator (data : JV NO) (pre p sep post : jstring)
    (l : list (JV NO)) :
  no_lbrace pre = true -> is_path p ->
  jstring_eqb p (js "true") = false -> jstring_eqb p (js "false") = false ->
  string_to_number NO p = None ->
  quotable sep = true ->
  getValueByPath data p = JArr l ->
  processHelpers (new_TemplateEngine HB)
    (pre ++ (js "{{join " ++ (p ++ js " " ++ quoted sep) ++ js "}}") ++ post)
    data =
  (out <- processHelpers (new_TemplateEngine HB) post data ;;;
   Ok (pre ++ join_with sep (List.map element_text l) ++ out)).
Proof.
  intros Hpre Hp Ht Hf Hn Hs Hv.
  destruct (path_token data p Hp Ht Hf Hn) as (Hok & Hval & Hrb & Hst & Hne).
  destruct (quoted_facts sep Hs) as [Hos Hrs].
  set (args := p ++ js " " ++ quoted sep).
  assert (Hargs : parseHelperArgs args data = [JArr l; JStr sep]).
  { pose proof (parseHelperArgs_tokens data
                  [(Bare p, js " "); (Quoted sep, [])]) as H.
    assert (Htxt : args_text [(Bare p, js " "); (Quoted sep, [])] = args)
      by (unfold args, quoted; cbn [args_text token_text];
          rewrite !app_nil_r; reflexivity).
    rewrite Htxt in H. rewrite H.
    - cbn [List.map fst]. rewrite Hval, Hv. reflexivity.
    - cbn [separated]. rewrite Hok, Hos. reflexivity. }
  pose proof (processHelpers_at_call (new_TemplateEngine HB) data
                join pre (js "join") (js " ") args post
                (default_helper_join HB) Hpre
                ltac:(intro Hx; vm_compute in Hx; discriminate) eq_refl
                ltac:(intro Hx; vm_compute in Hx; discriminate) eq_refl
                ltac:(unfold args; destruct p; [congruence|exact Hst])
                ltac:(unfold args; destruct p; [congruence|discriminate])
                ltac:(unfold args; rewrite !forallb_app, Hrb, Hrs;
                      reflexivity)) as Heq.
  change (js "{{join " ++ args ++ js "}}")
    with (js "{{" ++ js "join" ++ js " " ++ args ++ js "}}").
  rewrite Heq, Hargs. unfold join, arg_default, arg.
  cbn [nth bindR ToString]. reflexivity.
Qed.

End QuotedArguments.

(** * Concrete runs of the further properties *)

Lemma getValueByPath_falsy_stops_witness :
  getValueByPath (obj [field "name" (JStr [])]) (js "name.length") = JUndef.
Proof.
  exact (getValueByPath_falsy_stops (obj [field "name" (JStr [])])
           (js "name") (js "length") eq_refl).
Defined.

Lemma processTemplate_inert_witness :
  processTemplate empty_engine 1 (js "Row {{@index}}: {{ name }} {{/each}}")
    (obj [field "name" (str "Ada")])
  = Ok (js "Row {{@index}}: {{ name }} {{/each}}").
Proof.
  exact (processTemplate_inert empty_engine 0
           (js "Row {{@index}}: {{ name }} {{/each}}")
           (obj [field "name" (str "Ada")]) eq_refl).
Defined.

Lemma processLoops_unterminated_witness :
  processLoops (processTemplate empty_engine 1)
    (js "{{#each items}}<li>{{this}}</li>")
    (obj [field "items" (JArr [str "a"])])
  = Ok (js "{{#each items}}<li>{{this}}</li>").
Proof.
  exact (processLoops_unterminated (processTemplate empty_engine 1)
           (js "{{#each items}}<li>{{this}}</li>")
           (obj [field "items" (JArr [str "a"])]) eq_refl).
Defined.

Lemma processConditionals_unterminated_witness :
  processConditionals (processTemplate empty_engine 1)
    (js "{{#if active}}Yes{{else}}No") (obj [field "active" (JBool true)])
  = Ok (js "{{#if active}}Yes{{else}}No").
Proof.
  exact (processConditionals_unterminated (processTemplate empty_engine 1)
           (js "{{#if active}}Yes{{else}}No")
           (obj [field "active" (JBool true)]) eq_refl).
Defined.

Lemma block_bodies_hold_no_closing_marker_witness :
  loopRegex (js "{{#each a}}x{{#each b}}y{{/each}}z{{/each}}")
  = Some ((js "a", js "x{{#each b}}y"), js "z{{/each}}")
  /\ find_sub (js "{{/each}}") (js "x{{#each b}}y") = None.
Proof.
  split; [reflexivity|].
  exact (proj1 (block_bodies_hold_no_closing_marker
                  (js "{{#each a}}x{{#each b}}y{{/each}}z{{/each}}"))
           (js "a") (js "x{{#each b}}y") (js "z{{/each}}") eq_refl).
Defined.

Lemma processHelpers_invokes_witness :
  processHelpers bang_engine (js "a{{bang x}}b") (obj []) = Ok (js "a!b").
Proof.
  etransitivity;
    [ exact (proj1 (processHelpers_invokes bang_engine (obj [])
                      (fun _ => Ok (str "!")) (js "a") (js "bang") (js " ")
                      (js "x") (js "b")
                      ltac:(run) ltac:(run) ltac:(side) ltac:(run)
                      ltac:(side) ltac:(run) ltac:(run) ltac:(side)
                      ltac:(run)))
    | run ].
Defined.

Lemma processHelpers_needs_argument_witness :
  processHelpers bang_engine (js "{{bang }}") (obj []) = Ok (js "{{bang }}").
Proof.
  etransitivity;
    [ exact (processHelpers_needs_argument bang_engine (obj []) (js "bang")
               [] 32 ltac:(side) ltac:(run) ltac:(run))
    | run ].
Defined.

Lemma registerTemplate_frame_witness :
  render (registerTemplate (js "cv") (str "<p>{{name}}</p>") empty_engine) 1
    (js "Hello {{name}}!") (obj [field "name" (str "Ada")])
  = render empty_engine 1 (js "Hello {{name}}!")
      (obj [field "name" (str "Ada")]).
Proof.
  exact (registerTemplate_frame empty_engine (js "cv")
           (str "<p>{{name}}</p>") 1 (js "Hello {{name}}!")
           (obj [field "name" (str "Ada")]) ltac:(side)).
Defined.

Lemma render_registered_value_witness :
  render (registerTemplate (js "cv") (JStr []) empty_engine) 1 (js "cv")
    (obj [])
  = processTemplate (registerTemplate (js "cv") (JStr []) empty_engine) 1
      (js "cv") (obj []).
Proof.
  exact (proj2 (render_registered_value
                  (registerTemplate (js "cv") (JStr []) empty_engine)
                  (js "cv") (JStr []) 1 (obj []) ltac:(run)) eq_refl).
Defined.

Lemma replace_this_plain_witness :
  replace_this (str "Go") (js "<li>{{this}}</li>") = js "<li>Go</li>".
Proof.
  etransitivity;
    [ exact (replace_this_plain (str "Go") (js "<li>") (js "</li>")
               eq_refl eq_refl)
    | run ].
Defined.

Lemma replace_this_halves_dollars_witness :
  replace_this (str "US$$5") (js "{{this}}") = js "US$5".
Proof.
  etransitivity;
    [ exact (replace_this_halves_dollars (js "US") (js "5") [] []
               eq_refl eq_refl eq_refl)
    | run ].
Defined.

Lemma processTemplate_unbounded_recursion_witness :
  processTemplate empty_engine 9 each_this
    (obj [field "items" (JArr [JStr each_this])])
  = OutOfFuel.
Proof.
  exact (processTemplate_unbounded_recursion empty_engine 9
           [field "items" (JArr [JStr each_this])] eq_refl).
Defined.

Lemma join_call_renders_witness :
  processHelpers (new_TemplateEngine int_builtins) (js "{{join skills}}")
    (obj [field "skills" (JArr [str "Go"; JNull; str "Rust"])])
  = Ok (js "Go, , Rust").
Proof.
  etransitivity;
    [ exact (join_call_renders int_builtins
               (obj [field "skills" (JArr [str "Go"; JNull; str "Rust"])])
               [] (js "skills") [] eq_refl eq_refl eq_refl eq_refl eq_refl)
    | run ].
Defined.

Lemma capitalize_call_witness :
  processHelpers (new_TemplateEngine int_builtins) (js "{{capitalize age}}")
    (obj [field "age" (int 41)])
  = Throw.
Proof.
  etransitivity;
    [ exact (capitalize_call int_builtins (obj [field "age" (int 41)])
               [] (js "age") [] eq_refl eq_refl eq_refl eq_refl eq_refl)
    | run ].
Defined.

Lemma truncate_string_witness :
  exists r,
    truncate int_builtins [str "Hello World"; int 5] = Ok (JStr r)
    /\ r = js "Hello...".
Proof.
  destruct (truncate_string int_builtins (js "Hello World") 5
              ltac:(side) eq_refl eq_refl) as (r & Hr & Hv & _).
  exists r. split; [exact Hr|]. rewrite Hv. reflexivity.
Defined.

Lemma getTemplateNames_registration_witness :
  getTemplateNames
    (set_template (js "modern") (str "B")
       [(js "professional", str "A"); (js "modern", str "old")])
  = [js "professional"; js "modern"].
Proof.
  destruct (getTemplateNames_registration (js "modern") (str "B")
              [(js "professional", str "A"); (js "modern", str "old")]
              (helpers empty_engine)
              ltac:(apply (bool_decide_unpack _); vm_compute; exact I))
    as (_ & H & _).
  etransitivity; [apply H; vm_compute; auto | reflexivity].
Defined.

Lemma loop_in_conditional_is_expanded_witness :
  passes empty_engine (processTemplate empty_engine 1)
    (js "{{#if show}}{{#each items}}{{this.name}}{{/each}}{{/if}}")
    (obj [field "show" (JBool false); field "items" (JArr [JNull])])
  = Throw.
Proof.
  exact (proj2 (loop_in_conditional_is_expanded empty_engine 1
                  (obj [field "show" (JBool false);
                        field "items" (JArr [JNull])])
                  (js " ") (js "show") [] (js " ") (js "items")
                  (js "{{this.name}}") (js "{{/if}}")
                  ltac:(side) eq_refl eq_refl eq_refl
                  ltac:(side) eq_refl eq_refl eq_refl) eq_refl).
Defined.

Lemma value_is_read_by_helper_pass_witness :
  processTemplate bang_engine 1 (js "{{bio}}")
    (obj [field "bio" (str "{{bang x}}")])
  = Ok (js "!").
Proof.
  etransitivity;
    [ exact (proj1 (value_is_read_by_helper_pass bang_engine 0
                      (obj [field "bio" (str "{{bang x}}")])
                      (js "bio") (js "{{bang x}}") eq_refl eq_refl))
    | run ].
Defined.

Lemma if_call_selects_witness :
  processHelpers (new_TemplateEngine int_builtins)
    (js "<b class=" ++ (js "{{if " ++
       (js "open" ++ js " " ++ quoted (js "on") ++ js " " ++ quoted (js "off"))
       ++ js "}}") ++ js ">")
    (obj [field "open" (JBool false)])
  = Ok (js "<b class=off>").
Proof.
  etransitivity;
    [ exact (proj1 (if_call_selects int_builtins
                      (obj [field "open" (JBool false)])
                      (js "<b class=") (js "open") (js "on") (js "off")
                      (js ">") eq_refl eq_refl eq_refl eq_refl eq_refl
                      eq_refl eq_refl))
    | run ].
Defined.

Lemma join_call_with_separator_witness :
  processHelpers (new_TemplateEngine int_builtins)
    ([] ++ (js "{{join " ++ (js "skills" ++ js " " ++ quoted (js " | "))
            ++ js "}}") ++ [])
    (obj [field "skills" (JArr [str "Go"; str "Rust"])])
  = Ok (js "Go | Rust").
Proof.
  etransitivity;
    [ exact (join_call_with_separator int_builtins
               (obj [field "skills" (JArr [str "Go"; str "Rust"])])
               [] (js "skills") (js " | ") [] [str "Go"; str "Rust"]
               eq_refl eq_refl eq_refl eq_refl eq_refl eq_refl eq_refl)
    | run ].
Defined.

Lemma getValueByPath_compose_witness :
  getValueByPath
    (obj [field "personalInfo" (obj [field "email" (str "a@b.c")])])
    (js "personalInfo.email")
  = getValueByPath
      (getValueByPath
         (obj [field "personalInfo" (obj [field "email" (str "a@b.c")])])
         (js "personalInfo"))
      (js "email")
  /\ getValueByPath (obj [field "email" (str "a@b.c")]) (js "email")
     = str "a@b.c".
Proof.
  split.
  - exact (proj1 (getValueByPath_compose
                    (obj [field "personalInfo"
                            (obj [field "email" (str "a@b.c")])])
                    (js "personalInfo") (js "email"))).
  - exact (proj2 (getValueByPath_compose (obj []) [] (js "email"))
             [field "email" (str "a@b.c")] (str "a@b.c") eq_refl eq_refl).
Defined.

